(** * QCPortal: the identity-keyed fetch cache of [PortalClient]

    A shallow embedding of [PortalClient._get_with_cache] (src/client.py)
    and the properties of its lookup-then-fetch algorithm: output order and
    shape, the handling of missing identities, the calls made to the cache
    store and to the remote fetch function, and the effect on the caller's
    [include] list.

    Python objects are modelled as follows.
    - a dict with string keys is a [gmap string _]; a dict value is an
      [option entity], where [None] is Python's [None];
    - a set of strings is a [gset string];
    - the [include] argument is a reference into a heap of list objects, so
      that [include.append] is seen by whoever holds the same reference;
    - a call is a state transformer on a [world]: the cache store, the heap
      and a trace of the calls made to the two collaborators (the cache
      store and the remote fetch function);
    - a raised exception is the left summand of the result; what was done
      to the world before the [raise] stays done. *)

From Stdlib Require Import ZArith String List Permutation.
From stdpp Require Import gmap strings list fin_maps pretty.

Open Scope string_scope.
Open Scope list_scope.

(** ** Identities and call shapes *)

(** An id as a caller writes it: an integer or a string. *)
Inductive raw_id : Type :=
  | IntId (n : Z)
  | StrId (s : string).

(** The single-versus-list shape of the [id] argument. [One] is a scalar,
    [Many] is a Python [list]; [isinstance(id, list)] is the test on the
    constructor, which [make_str] keeps. *)
Inductive shaped (A : Type) : Type :=
  | One (a : A)
  | Many (l : list A).
Arguments One {A} a.
Arguments Many {A} l.

(** [str(i)] on one id: the decimal numeral of an integer, a string as it
    is. *)
Definition str (r : raw_id) : string :=
  match r with
  | IntId n => pretty n
  | StrId s => s
  end.

(** Modelled from the spec: [make_str] of [qcportal.utils], which is not
    among the sources. It normalises every requested identity to its
    canonical string, keeping the input order, the duplicates and the
    single-versus-list shape. *)
Definition make_str (id : shaped raw_id) : shaped string :=
  match id with
  | One r => One (str r)
  | Many l => Many (str <$> l)
  end.

(** Modelled from the spec: [make_list] of [qcportal.utils], which is not
    among the sources. A scalar becomes a one-element list, a list becomes a
    fresh list with the same elements. *)
Definition make_list {A : Type} (x : shaped A) : list A :=
  match x with
  | One a => [a]
  | Many l => l
  end.

(** ** Python list and dict primitives *)

(** [l.remove(x)]: drops the first occurrence of [x]; [None] stands for
    the [ValueError] raised when [x] does not occur. *)
Fixpoint list_remove (x : string) (l : list string) : option (list string) :=
  match l with
  | [] => None
  | y :: l' =>
      if decide (x = y) then Some l'
      else match list_remove x l' with
           | Some r => Some (y :: r)
           | None => None
           end
  end.

(** [for i in cached: ids.remove(i)], over the keys of [cached] in the
    order of the loop; [None] when one of the removals raises. *)
Fixpoint remove_each (keys : list string) (ids : list string)
    : option (list string) :=
  match keys with
  | [] => Some ids
  | k :: keys' =>
      match list_remove k ids with
      | None => None
      | Some ids' => remove_each keys' ids'
      end
  end.

Section Client.

(** The deserialised entities and the errors of the remote fetch are
    opaque to the cache layer. *)
Context {entity remote_exc : Type}.

Abbreviation pyval := (option entity).
Abbreviation dict := (gmap string (option entity)).

(** [d.get(k, None)] *)
Definition dict_get (d : dict) (k : string) : pyval :=
  match d !! k with
  | Some v => v
  | None => None
  end.

(** The keys of a dict, each once, as a [for] loop over the dict visits
    them. The order here is the map's; the one loop of the source over a
    dict does not depend on it (lemma [remove_each_order]). *)
Definition dict_keys (d : dict) : list string := (map_to_list d).*1.

(** [d1.update(d2)]: the entries of [d2] win. *)
Definition dict_update (d1 d2 : dict) : dict := d2 ∪ d1.

(** ** The world a call runs in *)

(** The request body handed to the fetch function:
    [{"data": {"ids": ids}}], with [{"meta": {"includes": include}}] when
    a field filter is given. *)
Record payload : Type := Payload {
  p_includes : option (list string);
  p_ids : list string
}.

(** A call to one of the two collaborators. *)
Inductive event : Type :=
  | EvCacheGet (ids : list string) (entity_type : string)
  | EvCachePut (to_cache : dict) (entity_type : string)
  | EvFetch (p : payload).

Record world : Type := World {
  w_store : gmap string dict;
  w_heap : gmap nat (list string);
  w_trace : list event
}.

(** What a [KeyError] says: the key a subscript did not find, or the
    message [f"No objects found for `id`: {missing}"] with its set of
    missing ids. *)
Inductive key_error : Type :=
  | KeyMissing (k : string)
  | NoObjectsFound (missing : gset string).

(** The exceptions a call can end in. [FetchError e] is the exception [e]
    that the fetch function raised. *)
Inductive exn : Type :=
  | KeyError (a : key_error)
  | ValueError
  | FetchError (e : remote_exc).

(** The value a call returns: a single entity or [None], or a list of
    them. *)
Inductive output : Type :=
  | OutOne (v : pyval)
  | OutList (l : list pyval).

(** State and exceptions. *)
Definition M (A : Type) : Type := world → world * (exn + A).

Definition ret {A : Type} (a : A) : M A := λ w, (w, inr a).

Definition raise {A : Type} (e : exn) : M A := λ w, (w, inl e).

Definition bind {A B : Type} (c : M A) (k : A → M B) : M B :=
  λ w, match c w with
       | (w', inr a) => k a w'
       | (w', inl e) => (w', inl e)
       end.

Notation "'let!' x ':=' c 'in' k" := (bind c (λ x, k))
  (at level 10, x name, c at level 100, k at level 200, only parsing).
Notation "'do!' c 'in' k" := (bind c (λ _, k))
  (at level 10, c at level 100, k at level 200, only parsing).

Definition log (e : event) : M unit :=
  λ w, (World (w_store w) (w_heap w) (w_trace w ++ [e]), inr tt).

Definition lift {A : Type} (r : exn + A) : M A := λ w, (w, r).

(** The number of remote fetches in a trace. *)
Definition is_fetch (e : event) : bool :=
  match e with EvFetch _ => true | _ => false end.

Definition fetch_calls (t : list event) : nat :=
  length (List.filter is_fetch t).

(** ** The collaborators *)

(** The entries of the store for one entity type. *)
Definition store_of (st : gmap string dict) (entity_type : string) : dict :=
  default ∅ (st !! entity_type).

(** Modelled from the spec: [PortalCache.get], which is not among the
    sources. [get(ids, kind)] returns the mapping of the requested ids that
    the store holds for the kind, and is silent on misses. *)
Definition lookup_store (st : gmap string dict) (ids : list string)
    (entity_type : string) : dict :=
  filter (λ kv, kv.1 ∈ ids) (store_of st entity_type).

Definition cache_get (ids : list string) (entity_type : string) : M dict :=
  do! log (EvCacheGet ids entity_type) in
  λ w, (w, inr (lookup_store (w_store w) ids entity_type)).

(** Modelled from the spec: [PortalCache.put], which is not among the
    sources. [put(mapping, kind)] stores every entry of the mapping under
    the kind; an entry already there is overwritten. *)
Definition insert_store (st : gmap string dict) (to_cache : dict)
    (entity_type : string) : gmap string dict :=
  <[entity_type := to_cache ∪ store_of st entity_type]> st.

Definition cache_put (to_cache : dict) (entity_type : string) : M unit :=
  do! log (EvCachePut to_cache entity_type) in
  λ w, (World (insert_store (w_store w) to_cache entity_type)
              (w_heap w) (w_trace w), inr tt).

(** The remote fetch function, [func] in the source: it answers a payload
    with [(results, to_cache)] or raises. *)
Definition fetcher : Type := payload → remote_exc + (dict * dict).

Definition call (func : fetcher) (p : payload) : M (dict * dict) :=
  do! log (EvFetch p) in
  lift (match func p with
        | inl e => inl (FetchError e)
        | inr r => inr r
        end).

(** The list object behind a reference. *)
Definition deref (r : nat) : M (list string) :=
  λ w, (w, inr (default [] (w_heap w !! r))).

(** [include.append(x)] *)
Definition append (r : nat) (x : string) : M unit :=
  λ w, (World (w_store w)
              (<[r := default [] (w_heap w !! r) ++ [x]]> (w_heap w))
              (w_trace w), inr tt).

(** ** [_get_with_cache] *)

(** A Python primitive that raises [ValueError] when it has no result. *)
Definition or_value_error {A : Type} (o : option A) : M A :=
  match o with
  | Some a => ret a
  | None => raise ValueError
  end.

(** [cached[i]] *)
Definition subscript (cached : dict) (i : string) : exn + pyval :=
  match cached !! i with
  | Some v => inr v
  | None => inl (KeyError (KeyMissing i))
  end.

(** [[cached[i] for i in str_id]] *)
Fixpoint subscript_all (cached : dict) (l : list string)
    : exn + list pyval :=
  match l with
  | [] => inr []
  | i :: l' =>
      match subscript cached i with
      | inl e => inl e
      | inr v =>
          match subscript_all cached l' with
          | inl e => inl e
          | inr vs => inr (v :: vs)
          end
      end
  end.

(** The payload built once some ids are left to fetch; with a field filter
    that lacks ["ids"], the caller's list gets ["ids"] appended first. *)
Definition build_payload (ids : list string) (include : option nat)
    : M payload :=
  match include with
  | None => ret (Payload None ids)
  | Some r =>
      let! inc := deref r in
      do! (if decide ("ids" ∈ inc) then ret tt else append r "ids") in
      let! inc' := deref r in
      ret (Payload (Some inc') ids)
  end.

Definition _get_with_cache (func : fetcher) (id : shaped raw_id)
    (missing_ok : bool) (entity_type : string) (include : option nat)
    : M output :=
  let str_id := make_str id in
  let ids := make_list str_id in
  (* if include is None: cached = self._cache.get(ids, ...) else: cached = {} *)
  let! cached := match include with
                  | None => cache_get ids entity_type
                  | Some _ => ret ∅
                  end in
  (* for i in cached: ids.remove(i) *)
  let! ids := or_value_error (remove_each (dict_keys cached) ids) in
  if decide (length ids = 0) then
    (* if isinstance(id, list): return [cached[i] for i in str_id]
       else: return cached[str_id] *)
    match str_id with
    | Many l => let! vs := lift (subscript_all cached l) in ret (OutList vs)
    | One s => let! v := lift (subscript cached s) in ret (OutOne v)
    end
  else
    let! p := build_payload ids include in
    (* results, to_cache = func(payload) *)
    let! r := call func p in
    let '(results, to_cache) := r in
    (* if include is None: self._cache.put(to_cache, ...) *)
    do! match include with
        | None => cache_put to_cache entity_type
        | Some _ => ret tt
        end in
    (* results.update(cached) *)
    let results := dict_update results cached in
    (* missing = set(make_list(str_id)) - set(results.keys()) *)
    let missing : gset string :=
      list_to_set (make_list str_id) ∖ dom results in
    (* if missing and not missing_ok: raise KeyError(...) *)
    if decide (missing ≠ ∅ ∧ missing_ok = false) then
      raise (KeyError (NoObjectsFound missing))
    else
      (* if isinstance(id, list): [results.get(i, None) for i in str_id]
         else: results.get(str_id, None) *)
      match str_id with
      | Many l => ret (OutList (dict_get results <$> l))
      | One s => ret (OutOne (dict_get results s))
      end.

(** ** The values the locals of [_get_with_cache] take

    The statements below speak about the locals of one call; these are
    their values as functions of the arguments and of the world the call
    starts in. *)

(** [make_list(str_id)]: the requested identities, normalised, in input
    order. *)
Definition requested (id : shaped raw_id) : list string :=
  make_list (make_str id).

(** [cached] *)
Definition cached_for (w : world) (id : shaped raw_id)
    (entity_type : string) (include : option nat) : dict :=
  match include with
  | None => lookup_store (w_store w) (requested id) entity_type
  | Some _ => ∅
  end.

(** [ids] once the removal loop is over *)
Definition ids_to_fetch (w : world) (id : shaped raw_id)
    (entity_type : string) (include : option nat) : list string :=
  match remove_each (dict_keys (cached_for w id entity_type include))
          (requested id) with
  | Some ids => ids
  | None => []
  end.

(** [ordered], for a mapping [results] *)
Definition ordered (results : dict) (str_id : shaped string) : output :=
  match str_id with
  | One s => OutOne (dict_get results s)
  | Many l => OutList (dict_get results <$> l)
  end.

(** The calls to the cache store that a call makes before and after the
    fetch. *)
Definition read_events (id : shaped raw_id) (entity_type : string)
    (include : option nat) : list event :=
  match include with
  | None => [EvCacheGet (requested id) entity_type]
  | Some _ => []
  end.

Definition write_events (to_cache : dict) (entity_type : string)
    (include : option nat) : list event :=
  match include with
  | None => [EvCachePut to_cache entity_type]
  | Some _ => []
  end.

(** The store and the heap a call that fetches leaves behind. *)
Definition store_after (w : world) (to_cache : dict) (entity_type : string)
    (include : option nat) : gmap string dict :=
  match include with
  | None => insert_store (w_store w) to_cache entity_type
  | Some _ => w_store w
  end.

Definition heap_after (w : world) (include : option nat)
    : gmap nat (list string) :=
  match include with
  | None => w_heap w
  | Some r =>
      let inc := default [] (w_heap w !! r) in
      if decide ("ids" ∈ inc) then w_heap w
      else <[r := inc ++ ["ids"]]> (w_heap w)
  end.

(** [payload]: the ids left to fetch and, under a field filter, the
    caller's list as it is once ["ids"] is in it. *)
Definition payload_for (w : world) (id : shaped raw_id)
    (entity_type : string) (include : option nat) : payload :=
  Payload
    (match include with
     | None => None
     | Some r => Some (default [] (heap_after w include !! r))
     end)
    (ids_to_fetch w id entity_type include).

(** The slots of an output, one per requested identity. *)
Definition slots (o : output) : list pyval :=
  match o with
  | OutOne v => [v]
  | OutList l => l
  end.

(** The events a call appends to the trace of the world it starts in. *)
Definition new_events (w w' : world) : list event :=
  drop (length (w_trace w)) (w_trace w').

(** Two calls in a row with the same arguments: the world after the first
    call, and the second call run in it. *)
Definition first_call (func : fetcher) (id : shaped raw_id)
    (missing_ok : bool) (entity_type : string) (w : world) : world :=
  (_get_with_cache func id missing_ok entity_type None w).1.

Definition second_call (func : fetcher) (id : shaped raw_id)
    (missing_ok : bool) (entity_type : string) (w : world)
    : world * (exn + output) :=
  _get_with_cache func id missing_ok entity_type None
    (first_call func id missing_ok entity_type w).

End Client.

Arguments world entity : clear implicits.
Arguments event entity : clear implicits.
Arguments exn remote_exc : clear implicits.
Arguments output entity : clear implicits.
Arguments M entity remote_exc A : clear implicits.
Arguments fetcher entity remote_exc : clear implicits.

(** ** A tuple of ids

    The accessors that hand their ids to [_get_with_cache] take an [int] or
    any sequence of them ([get_molecules], [get_keywords] and [get_records]
    announce [Union[int, Sequence[int]]] and test
    [isinstance(..., Sequence)]). A tuple is a sequence that is no [list]:
    [_get_with_cache] runs on it the statements it runs on a list, except
    that both tests [isinstance(id, list)] fail and send it down the
    branches of a scalar, where [str_id], a tuple, is used as one key. *)

Section Tuple.

Context {entity remote_exc : Type}.

(** Modelled from the spec: [make_str] of [qcportal.utils] on a tuple. It
    normalises every requested identity to its canonical string, keeping
    the input order and the duplicates; the result is a tuple again. *)
Definition make_str_tuple (id : list raw_id) : list string := str <$> id.

(** Modelled from the spec: [make_list] of [qcportal.utils] on a tuple: a
    fresh list with the same elements. *)
Definition make_list_tuple {A : Type} (x : list A) : list A := x.

(** The exceptions a call on a tuple can end in: those of a call on a
    scalar or a list, and the [KeyError] of [cached[str_id]], whose key is
    the tuple. *)
Inductive tuple_exn : Type :=
  | Exn (e : exn remote_exc)
  | KeyMissingTuple (key : list string).

Definition MT (A : Type) : Type :=
  world entity → world entity * (tuple_exn + A).

Definition ret_tuple {A : Type} (a : A) : MT A := λ w, (w, inr a).

Definition raise_tuple {A : Type} (e : tuple_exn) : MT A := λ w, (w, inl e).

Definition bind_tuple {A B : Type} (c : MT A) (k : A → MT B) : MT B :=
  λ w, match c w with
       | (w', inr a) => k a w'
       | (w', inl e) => (w', inl e)
       end.

(** A step shared with the call on a list. *)
Definition step {A : Type} (c : M entity remote_exc A) : MT A :=
  λ w, match c w with
       | (w', inr a) => (w', inr a)
       | (w', inl e) => (w', inl (Exn e))
       end.

Notation "'let!' x ':=' c 'in' k" := (bind_tuple c (λ x, k))
  (at level 10, x name, c at level 100, k at level 200, only parsing).
Notation "'do!' c 'in' k" := (bind_tuple c (λ _, k))
  (at level 10, c at level 100, k at level 200, only parsing).

(** [d[t]] and [d.get(t, None)] for a tuple [t]. The keys of [cached] and
    of [results] are strings (the normalised ids); a tuple equals no
    string, so the subscript raises and [get] falls back on [None]. *)
Definition subscript_tuple (d : gmap string (option entity))
    (t : list string) : tuple_exn + option entity :=
  inl (KeyMissingTuple t).

Definition dict_get_tuple (d : gmap string (option entity))
    (t : list string) : option entity :=
  None.

Definition _get_with_cache_tuple (func : fetcher entity remote_exc)
    (id : list raw_id) (missing_ok : bool) (entity_type : string)
    (include : option nat) : MT (output entity) :=
  let str_id := make_str_tuple id in
  let ids := make_list_tuple str_id in
  (* if include is None: cached = self._cache.get(ids, ...) else: cached = {} *)
  let! cached := step (match include with
                        | None => cache_get ids entity_type
                        | Some _ => ret ∅
                        end) in
  (* for i in cached: ids.remove(i) *)
  let! ids := step (or_value_error (remove_each (dict_keys cached) ids)) in
  if decide (length ids = 0) then
    (* isinstance(id, list) is False: return cached[str_id] *)
    let! v := λ w, (w, subscript_tuple cached str_id) in
    ret_tuple (OutOne v)
  else
    let! p := step (build_payload ids include) in
    (* results, to_cache = func(payload) *)
    let! r := step (call func p) in
    let '(results, to_cache) := r in
    (* if include is None: self._cache.put(to_cache, ...) *)
    do! step (match include with
              | None => cache_put to_cache entity_type
              | Some _ => ret tt
              end) in
    (* results.update(cached) *)
    let results := dict_update results cached in
    (* missing = set(make_list(str_id)) - set(results.keys()) *)
    let missing : gset string :=
      list_to_set (make_list_tuple str_id) ∖ dom results in
    (* if missing and not missing_ok: raise KeyError(...) *)
    if decide (missing ≠ ∅ ∧ missing_ok = false) then
      raise_tuple (Exn (KeyError (NoObjectsFound missing)))
    else
      (* isinstance(id, list) is False: ordered = results.get(str_id, None) *)
      ret_tuple (OutOne (dict_get_tuple results str_id)).

End Tuple.

Arguments tuple_exn remote_exc : clear implicits.
Arguments MT entity remote_exc A : clear implicits.

(** ** A small server, for the examples *)

(** The molecules the server has. *)
Definition molecules : gmap string (option string) :=
  <["1" := Some "H2O"]> (<["2" := Some "CH4"]> ∅).

(** A fetch function that answers with the molecules the server has among
    the ids of the payload, all of them cacheable. *)
Definition serve : fetcher string string :=
  λ p, let found :=
         filter (λ kv : string * option string, kv.1 ∈ p_ids p) molecules in
       inr (found, found).

(** A fetch function that always raises. *)
Definition unreachable : fetcher string string :=
  λ _, inl "connection refused".

(** A world with nothing cached, and one with molecule 1 cached; in both,
    reference 0 is the list [["name"]]. *)
Definition cold : world string :=
  World ∅ (<[0 := ["name"]]> ∅) [].

Definition warm : world string :=
  World (<["molecule" := <["1" := Some "H2O"]> ∅]> ∅)
        (<[0 := ["name"]]> ∅) [].

(** * The local snapshot of a dataset (src/datasets/models.py)

    [BaseDataset] keeps a snapshot of what the server holds for one
    dataset, in [raw_data], and mirrors in it every rename and delete it
    asks the server for. A method is a state transformer on the dataset
    object: the snapshot and the list of the requests sent so far.
    [self.client._auto_request] is the dataset's one collaborator; it
    answers a request with a value of the return type asked for, or
    raises. *)

Module Dataset.

(** [m.get(x, x)] for a renaming map. *)
Definition renamed (m : gmap string string) (x : string) : string :=
  match m !! x with
  | Some y => y
  | None => x
  end.

(** [l.extend(x for x in new if x not in l)]: [extend] takes the items of
    the generator one at a time, so the test [x not in l] of each item
    reads the list with the items appended before it. *)
Fixpoint extend_new (l new : list string) : list string :=
  match new with
  | [] => l
  | x :: new' =>
      if decide (x ∈ l) then extend_new l new'
      else extend_new (l ++ [x]) new'
  end.

(** [if l:] for a list that may be [None]. *)
Definition truthy {A : Type} (o : option (list A)) : bool :=
  match o with
  | Some (_ :: _) => true
  | _ => false
  end.

Section Model.

(** The types the derived dataset classes and the server fix are opaque:
    the data of a record and the record object built from it, an entry, a
    specification, the dataset metadata that no method below changes
    (tagline, tags, group, visibility, provenance, default tag and
    priority), what a request with no return model answers, and what a
    failed request raises. *)
Context {record_data record_obj entry specification other_metadata
         answer error : Type}.

(** [record_from_datamodel(self.client, data)], of [qcportal.records],
    which is not among the sources; [None] is Python's [None]. *)
Variable record_from_datamodel : record_data → option record_obj.

(** The attributes of an entry that the methods read and write: [x.name],
    [x.entry_name] and [x.entry_name = v]. The entry classes are not among
    the sources. *)
Variable name_of : entry → string.
Variable entry_name_of : entry → string.
Variable with_entry_name : string → entry → entry.

(** [s.lower()] *)
Variable lower : string → string.

(** [make_list(None)], of [qcportal.utils], which is not among the
    sources. *)
Variable make_list_none : option (list string).

(** An item of [record_items], with the attributes the methods use. *)
Record record_item : Type := RecordItem {
  specification_name : string;
  entry_name : string;
  record : record_data
}.

(** A Python dict of specifications: the items in insertion order, no key
    twice. *)
Abbreviation odict := (list (string * specification)).

(** [d[k] = v]: a key that is there keeps its place and takes the value, a
    new key goes last. *)
Fixpoint odict_set (k : string) (v : specification) (d : odict) : odict :=
  match d with
  | [] => [(k, v)]
  | (k', v') :: d' =>
      if decide (k = k') then (k, v) :: d'
      else (k', v') :: odict_set k v d'
  end.

(** [d.pop(k, None)] *)
Definition odict_pop (k : string) (d : odict) : odict :=
  filter (λ kv, kv.1 ≠ k) d.

(** [{name_map.get(x, x): y for x, y in d.items()}] *)
Definition rename_keys (name_map : gmap string string) (d : odict) : odict :=
  foldl (λ acc kv, odict_set (renamed name_map kv.1) kv.2 acc) [] d.

(** [_DataModel], without the fields no method below reads ([collection],
    [collection_type], [extra]). *)
Record raw_data : Type := RawData {
  id : Z;
  name : string;
  lname : string;
  description : option string;
  other : other_metadata;
  entry_names : option (list string);
  specifications : odict;
  entries : option (list entry);
  record_items : option (list record_item)
}.

Definition set_name_field (v : string) (r : raw_data) : raw_data :=
  RawData (id r) v (lname r) (description r) (other r) (entry_names r)
    (specifications r) (entries r) (record_items r).

Definition set_lname_field (v : string) (r : raw_data) : raw_data :=
  RawData (id r) (name r) v (description r) (other r) (entry_names r)
    (specifications r) (entries r) (record_items r).

Definition set_description_field (v : option string) (r : raw_data)
    : raw_data :=
  RawData (id r) (name r) (lname r) v (other r) (entry_names r)
    (specifications r) (entries r) (record_items r).

Definition set_entry_names (v : option (list string)) (r : raw_data)
    : raw_data :=
  RawData (id r) (name r) (lname r) (description r) (other r) v
    (specifications r) (entries r) (record_items r).

Definition set_specifications (v : odict) (r : raw_data) : raw_data :=
  RawData (id r) (name r) (lname r) (description r) (other r) (entry_names r)
    v (entries r) (record_items r).

Definition set_entries (v : option (list entry)) (r : raw_data) : raw_data :=
  RawData (id r) (name r) (lname r) (description r) (other r) (entry_names r)
    (specifications r) v (record_items r).

Definition set_record_items (v : option (list record_item)) (r : raw_data)
    : raw_data :=
  RawData (id r) (name r) (lname r) (description r) (other r) (entry_names r)
    (specifications r) (entries r) v.

(** ** Requests *)

(** The bodies the methods send: a [Dict[str, str]] of renamings,
    [DatasetDeleteStrBody], [DatasetFetchEntryBody],
    [DatasetFetchRecordItemsBody] and [DatasetModifyMetadataBody]. *)
Inductive body : Type :=
  | NameMap (name_map : gmap string string)
  | DeleteStrBody (names : list string) (delete_records : bool)
  | FetchEntryBody (names : option (list string))
  | FetchRecordItemsBody (entry_names specification_names : option (list string))
      (include : list string)
  | ModifyMetadataBody (name : string) (description : option string)
      (other : other_metadata).

Record request : Type := Request {
  method : string;
  url : string;
  payload : body
}.

(** [self.client._auto_request], by the return type asked for: [None]
    (the answer is handed back as it is), a list of record items, a list
    of entries. *)
Record client : Type := Client {
  answer_plain : request → error + answer;
  answer_record_items : request → error + list record_item;
  answer_entries : request → error + list entry
}.

(** The dataset object: its type tag, the snapshot, and the requests it
    has sent, oldest first. *)
Record dataset : Type := Dataset {
  dataset_type : string;
  raw : raw_data;
  sent : list request
}.

(** The exceptions a method can end in: the one a request raised, or the
    [ValueError] of an assignment to a field that [_DataModel], with
    [extra = Extra.forbid], does not declare. *)
Inductive exn : Type :=
  | RequestError (e : error)
  | NoField (field : string).

Definition M (A : Type) : Type := dataset → dataset * (exn + A).

Definition ret {A : Type} (a : A) : M A := λ d, (d, inr a).

Definition raise {A : Type} (e : exn) : M A := λ d, (d, inl e).

Definition bind {A B : Type} (c : M A) (k : A → M B) : M B :=
  λ d, match c d with
       | (d', inr a) => k a d'
       | (d', inl e) => (d', inl e)
       end.

(** [try: c except: handler; raise] *)
Definition try_except_reraise {A : Type} (c : M A) (handler : M unit) : M A :=
  λ d, match c d with
       | (d', inr a) => (d', inr a)
       | (d', inl e) =>
           match handler d' with
           | (d'', inr _) => (d'', inl e)
           | (d'', inl e') => (d'', inl e')
           end
       end.

Notation "'let!' x ':=' c 'in' k" := (bind c (λ x, k))
  (at level 10, x name, c at level 100, k at level 200, only parsing).
Notation "'do!' c 'in' k" := (bind c (λ _, k))
  (at level 10, c at level 100, k at level 200, only parsing).

(** Reading and writing [self.raw_data]. *)
Definition get_raw : M raw_data := λ d, (d, inr (raw d)).

Definition modify_raw (f : raw_data → raw_data) : M unit :=
  λ d, (Dataset (dataset_type d) (f (raw d)) (sent d), inr tt).

(** [f"v1/datasets/{self.dataset_type}/{self.id}" + suffix] *)
Definition dataset_url (d : dataset) (suffix : string) : string :=
  "v1/datasets/" +:+ dataset_type d +:+ "/" +:+ pretty (id (raw d)) +:+ suffix.

(** One call of [self.client._auto_request]: the request is sent, then
    answered or failed. *)
Definition auto_request {A : Type} (answer_of : request → error + A)
    (method : string) (suffix : string) (b : body) : M A :=
  λ d, let rq := Request method (dataset_url d suffix) b in
       (Dataset (dataset_type d) (raw d) (sent d ++ [rq]),
        match answer_of rq with
        | inl e => inl (RequestError e)
        | inr a => inr a
        end).

(** [make_list] on an optional argument. *)
Definition make_list_opt (x : option (shaped string)) : option (list string) :=
  match x with
  | None => make_list_none
  | Some s => Some (make_list s)
  end.

(** ** Entry names *)

Definition _append_entry_names (new_names : list string) (r : raw_data)
    : raw_data :=
  (* if self.raw_data.entry_names is None: self.raw_data.entry_names = [] *)
  let r := match entry_names r with
           | None => set_entry_names (Some []) r
           | Some _ => r
           end in
  (* self.raw_data.entry_names.extend(x for x in entry_names if x not in ...) *)
  set_entry_names
    (Some (extend_new (default [] (entry_names r)) new_names)) r.

Definition _post_add_entries (new_names : list string) (r : raw_data)
    : raw_data :=
  _append_entry_names new_names r.

Definition fetch_entries (c : client) (names : option (shaped string))
    : M unit :=
  let! fetched :=
    auto_request (answer_entries c) "post" "/entries/bulkFetch"
      (FetchEntryBody (make_list_opt names)) in
  do! modify_raw (set_entries (Some fetched)) in
  (* fetched_names = [x.name for x in self.raw_data.entries] *)
  let fetched_names := name_of <$> fetched in
  modify_raw (λ r,
    match entry_names r with
    | None => set_entry_names (Some fetched_names) r
    | Some l => set_entry_names (Some (extend_new l fetched_names)) r
    end).

(** ** Record items *)

(** The [for] loop of [_lookup_record]: the first item with the given
    specification and entry names decides. *)
Fixpoint find_record (items : list record_item)
    (entry_name' specification_name' : string) : option record_obj :=
  match items with
  | [] => None
  | ri :: items' =>
      if decide (specification_name ri = specification_name'
                 ∧ entry_name ri = entry_name')
      then record_from_datamodel (record ri)
      else find_record items' entry_name' specification_name'
  end.

Definition _lookup_record (r : raw_data)
    (entry_name' specification_name' : string) : option record_obj :=
  match record_items r with
  | None => None
  | Some items => find_record items entry_name' specification_name'
  end.

(** The [(specification_name, entry_name)] pair of an item. *)
Definition item_key (x : record_item) : string * string :=
  (specification_name x, entry_name x).

(** What [fetch_record_items] leaves in [record_items] once [record_info]
    has come in. *)
Definition merge_record_items (old : option (list record_item))
    (record_info : list record_item) : list record_item :=
  match old with
  | None => record_info
  | Some items =>
      let new_info := item_key <$> record_info in
      filter (λ x, item_key x ∉ new_info) items ++ record_info
  end.

Definition fetch_record_items (c : client)
    (entry_names' specification_names' : option (shaped string)) : M unit :=
  let! record_info :=
    auto_request (answer_record_items c) "post" "/record_items/bulkFetch"
      (FetchRecordItemsBody (make_list_opt entry_names')
         (make_list_opt specification_names') ["*"; "record"]) in
  modify_raw (λ r,
    set_record_items (Some (merge_record_items (record_items r) record_info)) r).

Definition get_record (c : client) (entry_name' specification_name' : string)
    : M (option record_obj) :=
  let! r := get_raw in
  do! match _lookup_record r entry_name' specification_name' with
      | None =>
          fetch_record_items c (Some (One entry_name'))
            (Some (One specification_name'))
      | Some _ => ret tt
      end in
  let! r := get_raw in
  ret (_lookup_record r entry_name' specification_name').

(** ** Specifications *)

Definition rename_item_specification (name_map : gmap string string)
    (x : record_item) : record_item :=
  RecordItem (renamed name_map (specification_name x)) (entry_name x)
    (record x).

Definition rename_specification (c : client) (old_name new_name : string)
    : M answer :=
  let name_map : gmap string string := {[old_name := new_name]} in
  let! r := auto_request (answer_plain c) "patch" "/specifications"
              (NameMap name_map) in
  do! modify_raw (λ d,
        set_specifications (rename_keys name_map (specifications d)) d) in
  do! modify_raw (λ d,
        if truthy (record_items d) then
          set_record_items
            (fmap (M := list) (rename_item_specification name_map)
               <$> record_items d) d
        else d) in
  ret r.

Definition delete_specification (c : client) (name' : string)
    (delete_records : bool) : M answer :=
  let! r := auto_request (answer_plain c) "post" "/specifications/bulkDelete"
              (DeleteStrBody [name'] delete_records) in
  do! modify_raw (λ d,
        set_specifications (odict_pop name' (specifications d)) d) in
  do! modify_raw (λ d,
        if truthy (record_items d) then
          set_record_items
            (filter (λ x, specification_name x ≠ name') <$> record_items d) d
        else d) in
  ret r.

(** ** Entries *)

Definition rename_item_entry (new_name_map : gmap string string)
    (x : record_item) : record_item :=
  RecordItem (specification_name x) (renamed new_name_map (entry_name x))
    (record x).

Definition rename_entries (c : client) (new_name_map : gmap string string)
    : M answer :=
  let! r := auto_request (answer_plain c) "patch" "/entries"
              (NameMap new_name_map) in
  do! modify_raw (λ d,
        if truthy (entry_names d) then
          set_entry_names
            (fmap (M := list) (renamed new_name_map) <$> entry_names d) d
        else d) in
  do! modify_raw (λ d,
        if truthy (entries d) then
          set_entries
            (fmap (M := list)
               (λ x, with_entry_name (renamed new_name_map (entry_name_of x)) x)
               <$> entries d) d
        else d) in
  do! modify_raw (λ d,
        if truthy (record_items d) then
          set_record_items
            (fmap (M := list) (rename_item_entry new_name_map)
               <$> record_items d) d
        else d) in
  ret r.

Definition delete_entries (c : client) (names : shaped string)
    (delete_records : bool) : M answer :=
  let names := make_list names in
  let! r := auto_request (answer_plain c) "post" "/entries/bulkDelete"
              (DeleteStrBody names delete_records) in
  do! modify_raw (λ d,
        if truthy (entry_names d) then
          set_entry_names (filter (λ x, x ∉ names) <$> entry_names d) d
        else d) in
  do! modify_raw (λ d,
        if truthy (entries d) then
          set_entries
            (filter (λ x, entry_name_of x ∉ names) <$> entries d) d
        else d) in
  do! modify_raw (λ d,
        if truthy (record_items d) then
          set_record_items
            (filter (λ x, entry_name x ∉ names) <$> record_items d) d
        else d) in
  ret r.

(** ** Name and description *)

Definition _update_metadata (c : client) : M unit :=
  let! r := get_raw in
  do! auto_request (answer_plain c) "patch" ""
        (ModifyMetadataBody (name r) (description r) (other r)) in
  ret tt.

Definition set_name (c : client) (new_name : string) : M unit :=
  let! r := get_raw in
  let old_name := name r in
  do! modify_raw (set_name_field new_name) in
  do! modify_raw (set_lname_field (lower new_name)) in
  try_except_reraise (_update_metadata c)
    (modify_raw (set_name_field old_name)).

Definition set_description (c : client) (new_description : option string)
    : M unit :=
  let! r := get_raw in
  let old_description := description r in
  do! modify_raw (set_description_field new_description) in
  try_except_reraise (_update_metadata c)
    (* self.raw_data.old_description = old_description *)
    (raise (NoField "old_description")).

End Model.

(** ** A small dataset, for the examples

    Records, record objects, specifications, answers and errors are
    strings, an entry is its name, and there is no other metadata. *)

Definition example_items : list (@record_item string) :=
  [RecordItem "spec_1" "water" "r1";
   RecordItem "spec_1" "methane" "r2";
   RecordItem "spec_2" "water" "r3"].

Definition example_raw : @raw_data string string string unit :=
  RawData 7 "Solvents" "solvents" None tt
    (Some ["water"; "methane"])
    [("spec_1", "hf/sto-3g"); ("spec_2", "b3lyp/def2-svp")]
    None
    (Some example_items).

Definition example_dataset : @dataset string string string unit :=
  Dataset "singlepoint" example_raw [].

(** A server that accepts every change, has one more record item, for
    methane under [spec_2], and the entries water and ethane. *)
Definition example_client : @client string string unit string string :=
  Client (λ _, inr "ok")
         (λ _, inr [RecordItem "spec_2" "methane" "r4"])
         (λ _, inr ["water"; "ethane"]).

End Dataset.

(** * The request wrappers of [PortalClient] (src/client.py)

    Most methods of [PortalClient] build a body, guard it against the
    empty input and against the limits the server advertises, hand it to
    [self._auto_request] and shape the answer. A method is a state
    transformer on the client: the requests sent and the warnings issued
    so far, beside the two attributes it only reads, [api_limits] and
    [username]. *)

Module Portal.

Section Model.

(** What the server stores and answers is opaque: keyword sets, molecules,
    the data of a record and the record built from it, user information,
    record priorities, the metadata of a query, an insert and an update,
    and what a failed request or a failed client-side check raises. *)
Context {keyword_set molecule record_data record user_info priority
         query_metadata insert_metadata update_metadata error : Type}.

(** [InsertMetadata()] and [UpdateMetadata()], the metadata of an operation
    that did nothing. *)
Variable empty_insert_metadata : insert_metadata.
Variable empty_update_metadata : update_metadata.

(** [is_valid_username(s)], of [qcportal.permissions], which is not among
    the sources: it returns, or raises ([Some e]). *)
Variable is_valid_username : string → option error.

(** [uinfo.username] *)
Variable username_of : user_info → string.

(** The conversion [recordmodel_from_datamodel] applies to the data of one
    record. *)
Variable to_record : record_data → record.

(** [make_list(None)], of [qcportal.utils], which is not among the
    sources. *)
Variable make_list_none : option (list string).

Definition make_list_opt (x : option (shaped string)) : option (list string) :=
  match x with
  | None => make_list_none
  | Some s => Some (make_list s)
  end.

(** The bodies of the requests modelled here: [CommonBulkGetBody] (with
    the [include] key of [get_records]), a list of molecules, the dict of
    [query_molecules], [RecordModifyBody], and no body. *)
Inductive body : Type :=
  | BulkGetBody (ids : list Z) (missing_ok : bool)
      (include : option (gset string))
  | MoleculeList (molecules : list molecule)
  | MoleculeQuery (molecule_hash molecular_formula : option (list string))
      (limit : option Z) (skip : Z)
      (identifiers : option (gmap string (list string)))
  | RecordModify (record_ids : list Z) (tag : option string)
      (new_priority : option priority)
  | NoBody.

Record request : Type := Request {
  method : string;
  url : string;
  payload : body
}.

(** [self._auto_request], by the return type asked for. *)
Record server : Type := Server {
  answer_keywords : request → error + list (option keyword_set);
  answer_records : request → error + list (option record_data);
  answer_insert : request → error + (insert_metadata * list Z);
  answer_query_molecules : request → error + (query_metadata * list molecule);
  answer_update : request → error + update_metadata;
  answer_user : request → error + user_info;
  answer_nothing : request → error + unit
}.

Record client : Type := Client {
  api_limits : gmap string Z;
  username : option string;
  sent : list request;
  warned : list string
}.

(** [KeyError] is the subscript of [api_limits] with a key it lacks,
    [IndexError] is [l[0]] on an empty list, [Raised e] is what a request
    or a client-side check raised. *)
Inductive exn : Type :=
  | RuntimeError (msg : string)
  | KeyError (key : string)
  | IndexError
  | Raised (e : error).

Definition M (A : Type) : Type := client → client * (exn + A).

Definition ret {A : Type} (a : A) : M A := λ c, (c, inr a).

Definition raise {A : Type} (e : exn) : M A := λ c, (c, inl e).

Definition bind {A B : Type} (m : M A) (k : A → M B) : M B :=
  λ c, match m c with
       | (c', inr a) => k a c'
       | (c', inl e) => (c', inl e)
       end.

Notation "'let!' x ':=' c 'in' k" := (bind c (λ x, k))
  (at level 10, x name, c at level 100, k at level 200, only parsing).
Notation "'do!' c 'in' k" := (bind c (λ _, k))
  (at level 10, c at level 100, k at level 200, only parsing).

(** [self.api_limits[key]] *)
Definition api_limit (key : string) : M Z :=
  λ c, (c, match api_limits c !! key with
           | Some n => inr n
           | None => inl (KeyError key)
           end).

(** [self.username] *)
Definition self_username : M (option string) := λ c, (c, inr (username c)).

(** [warnings.warn(msg)] *)
Definition warn (msg : string) : M unit :=
  λ c, (Client (api_limits c) (username c) (sent c) (warned c ++ [msg]),
        inr tt).

(** One call of [self._auto_request]. *)
Definition auto_request {A : Type} (answer_of : request → error + A)
    (method url : string) (b : body) : M A :=
  λ c, let rq := Request method url b in
       (Client (api_limits c) (username c) (sent c ++ [rq]) (warned c),
        match answer_of rq with
        | inl e => inl (Raised e)
        | inr a => inr a
        end).

(** A client-side check that returns or raises. *)
Definition check (r : option error) : M unit :=
  match r with
  | None => ret tt
  | Some e => raise (Raised e)
  end.

(** [l[0]] *)
Definition first {A : Type} (l : list A) : M A :=
  match l with
  | x :: _ => ret x
  | [] => raise IndexError
  end.

(** [len(l)], as the integer a message prints. *)
Definition len {A : Type} (l : list A) : Z := Z.of_nat (length l).

(** ** Keywords and molecules *)

Definition get_keywords (s : server) (keywords_ids : shaped Z)
    (missing_ok : bool) : M (shaped (option keyword_set)) :=
  let keywords_ids_lst := make_list keywords_ids in
  match keywords_ids_lst with
  | [] => ret (Many [])
  | _ =>
      let! limit := api_limit "get_keywords" in
      if decide (len keywords_ids_lst > limit)%Z then
        raise (RuntimeError
                 ("Cannot get " +:+ pretty (len keywords_ids_lst)
                  +:+ " keywords - over the limit of " +:+ pretty limit))
      else
        let! keywords :=
          auto_request (answer_keywords s) "post" "v1/keywords/bulkGet"
            (BulkGetBody keywords_ids_lst missing_ok None) in
        (* isinstance(keywords_ids, Sequence) *)
        match keywords_ids with
        | Many _ => ret (Many keywords)
        | One _ => let! k := first keywords in ret (One k)
        end
  end.

Definition add_molecules (s : server) (molecules : list molecule)
    : M (insert_metadata * list Z) :=
  match molecules with
  | [] => ret (empty_insert_metadata, [])
  | _ =>
      let! limit := api_limit "add_molecules" in
      if decide (len molecules > limit)%Z then
        raise (RuntimeError
                 ("Cannot add " +:+ pretty (len molecules)
                  +:+ " molecules - over the limit of " +:+ pretty limit))
      else
        auto_request (answer_insert s) "post" "v1/molecules/bulkCreate"
          (MoleculeList molecules)
  end.

Definition query_molecules (s : server)
    (molecule_hash molecular_formula : option (shaped string))
    (identifiers : option (gmap string (shaped string)))
    (limit : option Z) (skip : Z) : M (query_metadata * list molecule) :=
  let! limit :=
    match limit with
    | None => ret None
    | Some l =>
        let! server_limit := api_limit "get_molecules" in
        if decide (l > server_limit)%Z then
          do! warn ("Specified limit of " +:+ pretty l
                    +:+ " is over the server limit. Server limit will be used") in
          ret (Some (Z.min l server_limit))
        else ret (Some l)
    end in
  auto_request (answer_query_molecules s) "post" "v1/molecules/query"
    (MoleculeQuery (make_list_opt molecule_hash)
       (make_list_opt molecular_formula) limit skip
       (fmap (M := gmap string) make_list <$> identifiers)).

(** ** Records *)

(** The [include] set of [get_records]. *)
Definition records_include (include_task include_service include_outputs
    include_comments : bool) : gset string :=
  let include : gset string := ∅ in
  let include := if include_task then include ∪ {["*"; "task"]} else include in
  let include :=
    if include_service
    then include ∪ {["*"; "service.*"; "service.dependencies"]}
    else include in
  let include :=
    if include_outputs
    then include ∪ {["*"; "compute_history.*"; "compute_history.outputs"]}
    else include in
  let include :=
    if include_comments then include ∪ {["*"; "comments"]} else include in
  include.

(** [recordmodel_from_datamodel]: [None] stays [None]. *)
Definition recordmodel_from_datamodel (data : list (option record_data))
    : list (option record) :=
  fmap (M := option) to_record <$> data.

Definition get_records (s : server) (record_ids : shaped Z)
    (missing_ok include_task include_service include_outputs
     include_comments : bool) : M (shaped (option record)) :=
  let record_ids_lst := make_list record_ids in
  match record_ids_lst with
  | [] => ret (Many [])
  | _ =>
      let! limit := api_limit "get_records" in
      if decide (len record_ids_lst > limit)%Z then
        raise (RuntimeError
                 ("Cannot get " +:+ pretty (len record_ids_lst)
                  +:+ " records - over the limit of " +:+ pretty limit))
      else
        let include :=
          records_include include_task include_service include_outputs
            include_comments in
        (* if include: body_data["include"] = include *)
        let body_include :=
          if decide (include = ∅) then None else Some include in
        let! record_data' :=
          auto_request (answer_records s) "post" "v1/records/bulkGet"
            (BulkGetBody record_ids_lst missing_ok body_include) in
        let records := recordmodel_from_datamodel record_data' in
        match record_ids with
        | Many _ => ret (Many records)
        | One _ => let! r := first records in ret (One r)
        end
  end.

Definition modify_records (s : server) (record_ids : shaped Z)
    (new_tag : option string) (new_priority : option priority)
    : M update_metadata :=
  let record_ids := make_list record_ids in
  match record_ids with
  | [] => ret empty_update_metadata
  | _ =>
      match new_tag, new_priority with
      | None, None => ret empty_update_metadata
      | _, _ =>
          auto_request (answer_update s) "patch" "v1/records"
            (RecordModify record_ids new_tag new_priority)
      end
  end.

(** ** Users *)

Definition get_user (s : server) (username' : option string)
    (as_admin : bool) : M user_info :=
  let! me := self_username in
  (* if username is None: username = self.username *)
  let username' := match username' with
                   | None => me
                   | Some u => Some u
                   end in
  match username' with
  | None => raise (RuntimeError "Cannot get user - not logged in?")
  | Some u =>
      do! check (is_valid_username u) in
      (* if username != self.username: as_admin = True *)
      let as_admin := if decide (Some u ≠ me) then true else as_admin in
      if negb as_admin then
        let! uinfo := auto_request (answer_user s) "get" "v1/me" NoBody in
        if decide (Some (username_of uinfo) ≠ me) then
          raise (RuntimeError
                   ("Inconsistent username - client is " +:+ u
                    +:+ " but logged in as " +:+ username_of uinfo))
        else ret uinfo
      else
        auto_request (answer_user s) "get" ("v1/users/" +:+ u) NoBody
  end.

Definition delete_user (s : server) (username' : string) : M unit :=
  do! check (is_valid_username username') in
  let! me := self_username in
  if decide (Some username' = me) then
    raise (RuntimeError "Cannot delete your own user!")
  else
    auto_request (answer_nothing s) "delete" ("v1/users/" +:+ username') NoBody.

End Model.

(** ** A small server, for the examples

    Keyword sets, molecules, records, errors and users are strings (a user
    is its name), a priority is a number, and the metadata is empty. *)

Definition example_server
    : @server string string string string nat unit unit unit string :=
  Server (λ _, inr []) (λ _, inr []) (λ _, inr (tt, [])) (λ _, inr (tt, []))
         (λ _, inr tt) (λ rq, inr (if decide (url rq = "v1/me") then "alice"
                                   else "bob"))
         (λ _, inr tt).

(** A client logged in as alice, at a server that answers queries for at
    most 1000 molecules. *)
Definition example_client : @client string nat :=
  Client (<["get_molecules" := 1000%Z]> ∅) (Some "alice") [] [].

End Portal.

(** * Properties *)

(** ** [list.remove] and the removal loop *)

Lemma list_remove_perm (x : string) (l l' : list string) :
  list_remove x l = Some l' → l ≡ₚ x :: l'.
Proof.
  revert l'. induction l as [|y l IH]; intros l' H; simpl in H; [done|].
  destruct (decide (x = y)) as [->|Hne].
  - by inversion H.
  - destruct (list_remove x l) as [r|] eqn:E; [|done].
    inversion H; subst. rewrite (IH r eq_refl). apply perm_swap.
Qed.

Lemma list_remove_elem (x : string) (l : list string) :
  x ∈ l → is_Some (list_remove x l).
Proof.
  induction l as [|y l IH]; intros H; [by apply elem_of_nil in H|].
  simpl. destruct (decide (x = y)); [by eexists|].
  apply elem_of_cons in H as [?|H]; [done|].
  destruct (IH H) as [r ->]. by eexists.
Qed.

(** Removing a member of [K] does not change what lies outside [K]. *)
Lemma list_remove_filter (K : list string) (x : string) (l l' : list string) :
  x ∈ K → list_remove x l = Some l' →
  filter (λ i, i ∉ K) l = filter (λ i, i ∉ K) l'.
Proof.
  intros HK. revert l'. induction l as [|y l IH]; intros l' H; simpl in H; [done|].
  destruct (decide (x = y)) as [->|Hne].
  - inversion H; subst. rewrite filter_cons. by rewrite decide_False by tauto.
  - destruct (list_remove x l) as [r|] eqn:E; [|done].
    inversion H; subst. rewrite !filter_cons, (IH r eq_refl). done.
Qed.

(** Two removals of different elements commute. *)
Lemma list_remove_comm (x y : string) (l : list string) :
  x ≠ y →
  match list_remove x l with Some r => list_remove y r | None => None end
  = match list_remove y l with Some r => list_remove x r | None => None end.
Proof.
  intros Hne. induction l as [|a l IH]; simpl; [done|].
  destruct (decide (x = a)) as [->|Hx], (decide (y = a)) as [->|Hy];
    simpl; try done.
  - destruct (list_remove y l); simpl; [|done]. by rewrite decide_True.
  - destruct (list_remove x l); simpl; [|done]. by rewrite decide_True.
  - destruct (list_remove x l) as [rx|] eqn:Ex,
             (list_remove y l) as [ry|] eqn:Ey; simpl in *;
      rewrite ?decide_False by done;
      first [done | by rewrite IH | by rewrite <- IH].
Qed.

(** The loop visits the keys of [cached] in the order of the dict; the
    list it leaves is the same in any order. *)
Lemma remove_each_order (keys keys' ids : list string) :
  keys ≡ₚ keys' → remove_each keys ids = remove_each keys' ids.
Proof.
  intros Hp. revert ids.
  induction Hp as [|k ks ks' _ IH|k k' ks|ks1 ks2 ks3 _ IH1 _ IH2];
    intros ids; simpl.
  - done.
  - destruct (list_remove k ids); [apply IH|done].
  - destruct (decide (k = k')) as [->|Hne]; [done|].
    pose proof (list_remove_comm k' k ids (not_eq_sym Hne)) as Hc.
    destruct (list_remove k' ids) as [r|], (list_remove k ids) as [r'|];
      simpl in *; first [done | by rewrite Hc | by rewrite <- Hc].
  - by rewrite IH1, IH2.
Qed.

Lemma filter_all {A : Type} (P : A → Prop) `{!∀ x, Decision (P x)}
    (l : list A) :
  (∀ x, x ∈ l → P x) → filter P l = l.
Proof.
  induction l as [|x l IH]; intros Hall; [done|].
  rewrite filter_cons, decide_True by (apply Hall; left).
  rewrite IH; [done|]. intros y Hy. apply Hall. by right.
Qed.

Lemma filter_none {A : Type} (P : A → Prop) `{!∀ x, Decision (P x)}
    (l : list A) :
  (∀ x, x ∈ l → ¬ P x) → filter P l = [].
Proof.
  induction l as [|x l IH]; intros Hall; [done|].
  rewrite filter_cons, decide_False by (apply Hall; left).
  apply IH. intros y Hy. apply Hall. by right.
Qed.

Section Properties.

Context {entity remote_exc : Type}.

Implicit Types (w : world entity) (func : fetcher entity remote_exc).
Implicit Types (id : shaped raw_id) (include : option nat).
Implicit Types (cached results to_cache : gmap string (option entity)).

Lemma remove_each_ok (keys ids : list string) :
  NoDup keys → (∀ k, k ∈ keys → k ∈ ids) →
  ∃ rest, remove_each keys ids = Some rest ∧ ids ≡ₚ keys ++ rest.
Proof.
  revert ids. induction keys as [|k keys IH]; intros ids Hnd Hin; simpl.
  - by exists ids.
  - apply NoDup_cons in Hnd as [Hk Hnd].
    destruct (list_remove_elem k ids) as [ids' E]; [apply Hin; left|].
    rewrite E. pose proof (list_remove_perm _ _ _ E) as Hp.
    destruct (IH ids' Hnd) as (rest & -> & Hp').
    + intros k' Hk'. assert (k' ∈ k :: ids') as H.
      { rewrite <- Hp. apply Hin. by right. }
      apply elem_of_cons in H as [->|H]; done.
    + exists rest. split; [done|]. by rewrite Hp, Hp'.
Qed.

(** The loop leaves outside [keys] what was there, in the same order. *)
Lemma remove_each_filter (K keys ids rest : list string) :
  (∀ k, k ∈ keys → k ∈ K) →
  remove_each keys ids = Some rest →
  filter (λ i, i ∉ K) ids = filter (λ i, i ∉ K) rest.
Proof.
  revert ids. induction keys as [|k keys IH]; intros ids HK H; simpl in H.
  - by inversion H.
  - destruct (list_remove k ids) as [ids'|] eqn:E; [|done].
    rewrite (list_remove_filter K k ids ids'); [|apply HK; left|done].
    apply IH; [|done]. intros k' Hk'. apply HK. by right.
Qed.

(** ** The cache read *)

Lemma dict_keys_NoDup cached : NoDup (dict_keys cached).
Proof. apply NoDup_fst_map_to_list. Qed.

Lemma elem_of_dict_keys cached (k : string) :
  k ∈ dict_keys cached ↔ k ∈ dom cached.
Proof.
  unfold dict_keys. rewrite list_elem_of_fmap, elem_of_dom. split.
  - intros [[k' v] [-> H]]. apply elem_of_map_to_list in H. by eexists.
  - intros [v H]. exists (k, v). split; [done|]. by apply elem_of_map_to_list.
Qed.

Lemma lookup_store_Some (st : gmap string (gmap string (option entity)))
    (ids : list string) (kind i : string) (v : option entity) :
  lookup_store st ids kind !! i = Some v ↔
  store_of st kind !! i = Some v ∧ i ∈ ids.
Proof. unfold lookup_store. by rewrite map_lookup_filter_Some. Qed.

Lemma elem_of_dom_cached_for w id (kind : string) include (i : string) :
  i ∈ dom (cached_for w id kind include) ↔
  include = None ∧ i ∈ requested id ∧ i ∈ dom (store_of (w_store w) kind).
Proof.
  unfold cached_for. destruct include as [r|].
  - rewrite dom_empty_L. split; [set_solver|]. by intros [? _].
  - rewrite !elem_of_dom. unfold is_Some.
    setoid_rewrite lookup_store_Some. split.
    + intros (v & Hv & Hi). split; [done|]. split; [done|]. by exists v.
    + intros (_ & Hi & v & Hv). by exists v.
Qed.

(** The loop never raises: every key of [cached] is a requested identity.
    What is left is the request minus one occurrence of each cached
    identity. *)
Lemma remove_each_cached w id (kind : string) include :
  remove_each (dict_keys (cached_for w id kind include)) (requested id)
  = Some (ids_to_fetch w id kind include)
  ∧ requested id ≡ₚ
      dict_keys (cached_for w id kind include) ++ ids_to_fetch w id kind include.
Proof.
  destruct (remove_each_ok (dict_keys (cached_for w id kind include))
              (requested id)) as (rest & E & Hp).
  - apply dict_keys_NoDup.
  - intros k Hk. apply elem_of_dict_keys, elem_of_dom_cached_for in Hk. tauto.
  - unfold ids_to_fetch. rewrite E. done.
Qed.

(** ** The two paths of a call *)

Lemma subscript_all_cached cached (l : list string) :
  (∀ i, i ∈ l → i ∈ dom cached) →
  subscript_all (remote_exc := remote_exc) cached l
  = inr (dict_get cached <$> l).
Proof.
  induction l as [|i l IH]; intros H; simpl; [done|].
  assert (i ∈ dom cached) as Hi by (apply H; left).
  apply elem_of_dom in Hi as [v Hv].
  unfold subscript, dict_get. rewrite Hv.
  rewrite IH; [done|]. intros j Hj. apply H. by right.
Qed.

Lemma ids_to_fetch_nil_cached w id (kind : string) include (i : string) :
  ids_to_fetch w id kind include = [] →
  i ∈ requested id → i ∈ dom (cached_for w id kind include).
Proof.
  intros E Hi. destruct (remove_each_cached w id kind include) as [_ Hp].
  rewrite E, app_nil_r in Hp. rewrite Hp in Hi.
  by apply elem_of_dict_keys.
Qed.

(** Every identity left after the loop is fetched: the call returns what
    the cache holds, in the shape of the request. *)
Lemma run_hit func id (missing_ok : bool) (kind : string) include w :
  ids_to_fetch w id kind include = [] →
  _get_with_cache func id missing_ok kind include w =
    (World (w_store w) (w_heap w)
       (w_trace w ++ read_events id kind include),
     inr (ordered (cached_for w id kind include) (make_str id))).
Proof.
  intros E.
  pose proof (ids_to_fetch_nil_cached w id kind include) as Hall.
  specialize (λ i, Hall i E).
  destruct (remove_each_cached w id kind include) as [Hr _].
  rewrite E in Hr. unfold cached_for, requested in *.
  unfold _get_with_cache, bind, cache_get, log, ret, bind, or_value_error.
  destruct include as [r|]; simpl; rewrite Hr; simpl.
  - destruct w as [st h t]; simpl. rewrite app_nil_r.
    destruct id as [a|l]; simpl in *.
    + specialize (Hall (str a)). rewrite dom_empty_L in Hall.
      assert (str a ∈ (∅ : gset string)) by (apply Hall; by left).
      set_solver.
    + destruct l as [|a l]; [done|].
      specialize (Hall (str a)). rewrite dom_empty_L in Hall.
      assert (str a ∈ (∅ : gset string)) by (apply Hall; by left).
      set_solver.
  - destruct id as [a|l]; simpl in *.
    + unfold lift, subscript, dict_get.
      assert (str a ∈ [str a]) as Ha by (by left).
      apply Hall, elem_of_dom in Ha as [v Hv]. by rewrite Hv.
    + unfold lift. by rewrite subscript_all_cached.
Qed.

(** Some identity is left after the loop: one fetch, then the merge, the
    check for missing identities and the ordering. *)
Lemma run_miss func id (missing_ok : bool) (kind : string) include w :
  ids_to_fetch w id kind include ≠ [] →
  _get_with_cache func id missing_ok kind include w =
    let p := payload_for w id kind include in
    let t := w_trace w ++ read_events id kind include ++ [EvFetch p] in
    match func p with
    | inl e => (World (w_store w) (heap_after w include) t,
                inl (FetchError e))
    | inr (results, to_cache) =>
        let merged := dict_update results (cached_for w id kind include) in
        let missing : gset string :=
          list_to_set (requested id) ∖ dom merged in
        (World (store_after w to_cache kind include) (heap_after w include)
           (t ++ write_events to_cache kind include),
         if decide (missing ≠ ∅ ∧ missing_ok = false)
         then inl (KeyError (NoObjectsFound missing))
         else inr (ordered merged (make_str id)))
    end.
Proof.
  intros Hne.
  destruct (remove_each_cached w id kind include) as [Hr _].
  unfold payload_for. revert Hne Hr.
  generalize (ids_to_fetch w id kind include) as ids. intros ids Hne Hr.
  unfold cached_for, requested in *.
  unfold _get_with_cache, bind, cache_get, log, ret, bind, or_value_error.
  destruct include as [r|]; simpl; rewrite Hr; simpl.
  - destruct (decide (length ids = 0)) as [E|_];
      [by apply nil_length_inv in E|].
    unfold build_payload, bind, deref, ret, append, call, bind, log, lift.
    simpl. destruct w as [st h t]; simpl.
    destruct (decide ("ids" ∈ default [] (h !! r))) as [Hin|Hnin]; simpl.
    + destruct (func _) as [e|[results to_cache]]; simpl.
      * done.
      * rewrite app_nil_r.
        destruct (decide _); destruct id; done.
    + rewrite lookup_insert_eq. simpl.
      destruct (func _) as [e|[results to_cache]]; simpl.
      * done.
      * rewrite app_nil_r.
        destruct (decide _); destruct id; done.
  - destruct (decide (length ids = 0)) as [E|_];
      [by apply nil_length_inv in E|].
    unfold build_payload, bind, deref, ret, append, call, bind, log, lift,
      cache_put, bind, log.
    simpl. destruct (func _) as [e|[results to_cache]]; simpl.
    + by rewrite <- app_assoc.
    + rewrite <- !app_assoc. simpl.
      destruct (decide _); destruct id; done.
Qed.

(** ** What is left to fetch *)

Lemma uncached_is_fetched w id (kind : string) include (i : string) :
  i ∈ requested id → i ∉ dom (cached_for w id kind include) →
  i ∈ ids_to_fetch w id kind include.
Proof.
  intros Hi Hc. destruct (remove_each_cached w id kind include) as [_ Hp].
  rewrite Hp in Hi. apply elem_of_app in Hi as [Hi|Hi]; [|done].
  by apply elem_of_dict_keys in Hi.
Qed.

Lemma fetched_is_requested w id (kind : string) include (i : string) :
  i ∈ ids_to_fetch w id kind include → i ∈ requested id.
Proof.
  intros Hi. destruct (remove_each_cached w id kind include) as [_ Hp].
  rewrite Hp. apply elem_of_app. by right.
Qed.

(** With no cached identity requested twice, what is left is the request
    without the cached identities, in input order. *)
Lemma ids_to_fetch_filter w id (kind : string) include :
  NoDup (filter (λ i, i ∈ dom (cached_for w id kind include)) (requested id)) →
  ids_to_fetch w id kind include
  = filter (λ i, i ∉ dom (cached_for w id kind include)) (requested id).
Proof.
  intros Hnd. destruct (remove_each_cached w id kind include) as [Hr Hp].
  set (cached := cached_for w id kind include) in *.
  set (rest := ids_to_fetch w id kind include) in *.
  assert (∀ i, i ∈ rest → i ∉ dom cached) as Hout.
  { intros i Hi Hc.
    assert (NoDup (dict_keys cached ++ filter (λ i, i ∈ dom cached) rest)) as H.
    { rewrite Hp, filter_app in Hnd.
      rewrite (filter_all (λ i, i ∈ dom cached) (dict_keys cached)) in Hnd;
        [done|]. intros k. apply elem_of_dict_keys. }
    apply NoDup_app in H as (_ & H & _).
    apply (H i); [by apply elem_of_dict_keys|].
    by apply list_elem_of_filter. }
  rewrite <- (filter_all (λ i, i ∉ dom cached) rest) by done.
  symmetry.
  rewrite (list_filter_iff (λ i, i ∉ dom cached)
             (λ i, i ∉ dict_keys cached) (requested id)),
          (list_filter_iff (λ i, i ∉ dom cached)
             (λ i, i ∉ dict_keys cached) rest).
  - by apply (remove_each_filter _ (dict_keys cached)).
  - intros i. by rewrite elem_of_dict_keys.
  - intros i. by rewrite elem_of_dict_keys.
Qed.

Lemma no_duplicate_full_hit w id (kind : string) include :
  NoDup (requested id) →
  (∀ i, i ∈ requested id → i ∈ dom (cached_for w id kind include)) →
  ids_to_fetch w id kind include = [].
Proof.
  intros Hnd Hall. rewrite ids_to_fetch_filter by by apply NoDup_filter.
  apply filter_none. intros i Hi Hc. by apply Hc, Hall.
Qed.

(** ** The trace of a call *)

Lemma fetch_calls_app (t1 t2 : list (event entity)) :
  fetch_calls (t1 ++ t2) = fetch_calls t1 + fetch_calls t2.
Proof. unfold fetch_calls. by rewrite List.filter_app, length_app. Qed.

Lemma new_events_app w (evs : list (event entity))
    (st : gmap string (gmap string (option entity)))
    (h : gmap nat (list string)) :
  new_events w (World st h (w_trace w ++ evs)) = evs.
Proof. unfold new_events. simpl. by rewrite drop_app_length. Qed.

(** The events one call appends: the cache read when no field filter is
    given, then, when some identity is left, the one fetch and, if it
    returns and no field filter is given, the cache write. *)
Lemma run_new_events func id (missing_ok : bool) (kind : string) include w :
  w_trace (_get_with_cache func id missing_ok kind include w).1
  = w_trace w ++ new_events w (_get_with_cache func id missing_ok kind include w).1
  ∧ new_events w (_get_with_cache func id missing_ok kind include w).1
    = read_events id kind include ++
      (if decide (ids_to_fetch w id kind include = []) then []
       else EvFetch (payload_for w id kind include) ::
            match func (payload_for w id kind include) with
            | inl _ => []
            | inr (_, to_cache) => write_events to_cache kind include
            end).
Proof.
  destruct (decide (ids_to_fetch w id kind include = [])) as [E|Hne].
  - rewrite run_hit by done. simpl. rewrite new_events_app.
    by rewrite app_nil_r.
  - rewrite run_miss by done. simpl.
    destruct (func _) as [e|[results to_cache]]; simpl.
    + by rewrite new_events_app.
    + rewrite <- !app_assoc. simpl. by rewrite new_events_app.
Qed.

Lemma fetch_calls_read_events id (kind : string) include :
  fetch_calls (entity := entity) (read_events id kind include) = 0.
Proof. by destruct include. Qed.

Lemma fetch_calls_write_events to_cache (kind : string) include :
  fetch_calls (write_events to_cache kind include) = 0.
Proof. by destruct include. Qed.

Lemma run_fetch_calls func id (missing_ok : bool) (kind : string) include w :
  fetch_calls (new_events w (_get_with_cache func id missing_ok kind include w).1)
  = if decide (ids_to_fetch w id kind include = []) then 0 else 1.
Proof.
  destruct (run_new_events func id missing_ok kind include w) as [_ ->].
  rewrite fetch_calls_app, fetch_calls_read_events.
  destruct (decide _); [done|].
  destruct (func _) as [e|[results to_cache]]; [done|].
  change (EvFetch ?p :: ?t) with ([EvFetch p] ++ t).
  by rewrite fetch_calls_app, fetch_calls_write_events.
Qed.

(** ** Results of a call that does not raise *)

Lemma dict_get_update_cached results cached (i : string) :
  i ∈ dom cached → dict_get (dict_update results cached) i = dict_get cached i.
Proof.
  intros [v Hv]%elem_of_dom. unfold dict_get, dict_update.
  by rewrite (lookup_union_Some_l _ _ _ _ Hv), Hv.
Qed.

Lemma dict_get_missing results (i : string) :
  i ∉ dom results → dict_get results i = None.
Proof. intros H%not_elem_of_dom. unfold dict_get. by rewrite H. Qed.

Lemma slots_ordered results (s : shaped string) :
  slots (ordered results s) = dict_get results <$> make_list s.
Proof. by destruct s. Qed.

Lemma ordered_ext results results' (s : shaped string) :
  (∀ i, i ∈ make_list s → dict_get results i = dict_get results' i) →
  ordered results s = ordered results' s.
Proof.
  intros H. destruct s as [a|l]; simpl in *.
  - rewrite H; [done|by left].
  - f_equal. apply list_fmap_ext. intros k i Hi. apply H.
    by apply list_elem_of_lookup_2 in Hi.
Qed.

(** A call whose fetch, if any, returns, and which has no missing identity
    to complain about, returns the merged results in the shape and order
    of the request. *)
Lemma run_ok func id (missing_ok : bool) (kind : string) include w
    results to_cache :
  (ids_to_fetch w id kind include ≠ [] →
   func (payload_for w id kind include) = inr (results, to_cache)) →
  (missing_ok = true ∨
   ∀ i, i ∈ requested id →
        i ∈ dom (cached_for w id kind include) ∨ i ∈ dom results) →
  (_get_with_cache func id missing_ok kind include w).2
  = inr (ordered (dict_update results (cached_for w id kind include))
           (make_str id)).
Proof.
  intros Hf Hres.
  destruct (decide (ids_to_fetch w id kind include = [])) as [E|Hne].
  - rewrite run_hit by done. simpl. f_equal. apply ordered_ext.
    intros i Hi. symmetry. apply dict_get_update_cached.
    by apply ids_to_fetch_nil_cached.
  - rewrite run_miss by done. simpl. rewrite (Hf Hne). simpl.
    rewrite decide_False; [done|].
    intros [Hm Hok]. destruct Hres as [->|Hres]; [done|].
    apply Hm. apply set_eq. intros i.
    rewrite elem_of_difference, elem_of_list_to_set. unfold dict_update.
    rewrite dom_union_L, elem_of_union. split; [|set_solver].
    intros [Hi Hn]. destruct (Hres i Hi); tauto.
Qed.

(** C1: for every list of requested identities, cached, fetched or mixed,
    duplicates included, a call that returns gives the results in exactly
    the order of the input list: slot by slot, the value for the identity
    at that position, taken from the cache when the cache has it and from
    the fetched results otherwise. The call returns whenever its fetch (if
    it makes one) returns and either [missing_ok] is set or every identity
    is resolved. *)
Theorem results_in_input_order func (l : list raw_id) (missing_ok : bool)
    (kind : string) include w results to_cache :
  (ids_to_fetch w (Many l) kind include ≠ [] →
   func (payload_for w (Many l) kind include) = inr (results, to_cache)) →
  (missing_ok = true ∨
   ∀ i, i ∈ str <$> l →
        i ∈ dom (cached_for w (Many l) kind include) ∨ i ∈ dom results) →
  (_get_with_cache func (Many l) missing_ok kind include w).2
  = inr (OutList
           (dict_get (dict_update results (cached_for w (Many l) kind include))
              <$> (str <$> l))).
Proof. intros Hf Hres. by rewrite (run_ok _ _ _ _ _ _ results to_cache). Qed.

(** For a scalar and for a Python [list], the shape of the request is the
    shape of the result. A scalar request returns a single value (an entity
    or [None]), never a list; a list request, a one-element list included,
    returns a list of the same length. The call does return whenever its
    fetch (if it makes one) returns and either [missing_ok] is set or every
    identity is resolved. *)
Theorem output_shape_follows_input func id (missing_ok : bool)
    (kind : string) include w :
  (∀ out, (_get_with_cache func id missing_ok kind include w).2 = inr out →
     match id with
     | One _ => ∃ v, out = OutOne v
     | Many l => ∃ vs, out = OutList vs ∧ length vs = length l
     end)
  ∧ (∀ results to_cache,
       (ids_to_fetch w id kind include ≠ [] →
        func (payload_for w id kind include) = inr (results, to_cache)) →
       (missing_ok = true ∨
        ∀ i, i ∈ requested id →
             i ∈ dom (cached_for w id kind include) ∨ i ∈ dom results) →
       ∃ out, (_get_with_cache func id missing_ok kind include w).2 = inr out).
Proof.
  split.
  - assert (∀ results out, ordered results (make_str id) = out →
      match id with
      | One _ => ∃ v, out = OutOne v
      | Many l => ∃ vs, out = OutList vs ∧ length vs = length l
      end) as Hshape.
    { intros results out <-. destruct id as [a|l]; simpl; [by eexists|].
      eexists. split; [done|]. by rewrite !length_fmap. }
    intros out.
    destruct (decide (ids_to_fetch w id kind include = [])) as [E|Hne].
    + rewrite run_hit by done. simpl. intros [= <-]. by eapply Hshape.
    + rewrite run_miss by done. simpl.
      destruct (func _) as [e|[results to_cache]]; simpl; [done|].
      destruct (decide _); [done|]. intros [= <-]. by eapply Hshape.
  - intros results to_cache Hf Hres. eexists. by eapply run_ok.
Qed.

(** C2: when the fetch returns and some requested identity is in neither
    the cached entries nor the fetched results, a call with
    [missing_ok = false] raises the not-found error ([KeyError] in the
    source) carrying the set of all such identities, and with
    [missing_ok = true] it returns, with one slot per requested identity
    and [None] in the slot of every such identity. *)
Theorem missing_identities func id (missing_ok : bool) (kind : string)
    include w results to_cache (i0 : string) :
  func (payload_for w id kind include) = inr (results, to_cache) →
  i0 ∈ requested id →
  i0 ∉ dom (cached_for w id kind include) →
  i0 ∉ dom results →
  ∃ missing : gset string,
    (∀ i, i ∈ missing ↔
          i ∈ requested id ∧ (i ∉ dom (cached_for w id kind include))
          ∧ i ∉ dom results)
    ∧ (missing_ok = false →
       (_get_with_cache func id missing_ok kind include w).2
       = inl (KeyError (NoObjectsFound missing)))
    ∧ (missing_ok = true →
       ∃ out,
         (_get_with_cache func id missing_ok kind include w).2 = inr out
         ∧ length (slots out) = length (requested id)
         ∧ ∀ (k : nat) (i : string),
             requested id !! k = Some i → i ∈ missing →
             slots out !! k = Some None).
Proof.
  intros Hf Hi0 Hc0 Hr0.
  set (merged := dict_update results (cached_for w id kind include)).
  exists (list_to_set (requested id) ∖ dom merged).
  assert (∀ i, i ∈ (list_to_set (requested id) ∖ dom merged : gset string) ↔
            i ∈ requested id ∧ (i ∉ dom (cached_for w id kind include))
            ∧ i ∉ dom results) as Hmiss.
  { intros i. unfold merged, dict_update.
    rewrite elem_of_difference, elem_of_list_to_set, dom_union_L,
      elem_of_union. tauto. }
  assert (ids_to_fetch w id kind include ≠ []) as Hne.
  { intros E. pose proof (uncached_is_fetched w id kind include i0 Hi0 Hc0) as H.
    rewrite E in H. by apply elem_of_nil in H. }
  split; [done|]. split.
  - intros ->. rewrite run_miss by done. simpl. rewrite Hf. simpl.
    rewrite decide_True; [done|]. split; [|done].
    intros E. assert (i0 ∈ (∅ : gset string)) as H; [|set_solver].
    rewrite <- E. by apply Hmiss.
  - intros ->. eexists. split; [by eapply run_ok; eauto|].
    rewrite slots_ordered. fold (requested id).
    split; [by rewrite length_fmap|].
    intros k i Hk Hm. rewrite list_lookup_fmap, Hk. simpl. f_equal.
    apply dict_get_missing. fold merged. apply Hmiss in Hm.
    unfold merged, dict_update. rewrite dom_union_L, elem_of_union. tauto.
Qed.

(** C8: one call invokes the remote fetch function at most once, and
    exactly once when some requested identity is not among the cached
    entries. When the fetch raises, the call raises that very error: it is
    not caught, not replaced, and the fetch is not tried again; nothing is
    written to the store. *)
Theorem one_fetch_errors_propagate func id (missing_ok : bool)
    (kind : string) include w :
  w_trace (_get_with_cache func id missing_ok kind include w).1
  = w_trace w ++ new_events w (_get_with_cache func id missing_ok kind include w).1
  ∧ (fetch_calls
       (new_events w (_get_with_cache func id missing_ok kind include w).1)
     ≤ 1)%nat
  ∧ ((∃ i, i ∈ requested id ∧ i ∉ dom (cached_for w id kind include)) →
     fetch_calls
       (new_events w (_get_with_cache func id missing_ok kind include w).1) = 1)
  ∧ (∀ p e,
       EvFetch p ∈ new_events w (_get_with_cache func id missing_ok kind include w).1 →
       func p = inl e →
       (_get_with_cache func id missing_ok kind include w).2
       = inl (FetchError e)
       ∧ fetch_calls
           (new_events w (_get_with_cache func id missing_ok kind include w).1) = 1
       ∧ w_store (_get_with_cache func id missing_ok kind include w).1
         = w_store w).
Proof.
  split; [apply run_new_events|].
  rewrite run_fetch_calls. split; [destruct (decide _); lia|]. split.
  - intros (i & Hi & Hc). rewrite decide_False; [done|].
    intros E. pose proof (uncached_is_fetched w id kind include i Hi Hc) as H.
    rewrite E in H. by apply elem_of_nil in H.
  - intros p e Hp He.
    destruct (run_new_events func id missing_ok kind include w) as [_ Hev].
    rewrite Hev in Hp. clear Hev.
    destruct (decide (ids_to_fetch w id kind include = [])) as [E|Hne].
    + rewrite app_nil_r in Hp. destruct include; simpl in Hp.
      * by apply elem_of_nil in Hp.
      * apply elem_of_cons in Hp as [?|Hp]; [done|by apply elem_of_nil in Hp].
    + assert (p = payload_for w id kind include) as ->.
      { apply elem_of_app in Hp as [Hp|Hp].
        - destruct include; simpl in Hp;
            [by apply elem_of_nil in Hp|].
          apply elem_of_cons in Hp as [?|Hp];
            [done|by apply elem_of_nil in Hp].
        - apply elem_of_cons in Hp as [[= ->]|Hp]; [done|].
          destruct (func _) as [?|[? to_cache]];
            [by apply elem_of_nil in Hp|].
          destruct include; simpl in Hp; [by apply elem_of_nil in Hp|].
          apply elem_of_cons in Hp as [?|Hp];
            [done|by apply elem_of_nil in Hp]. }
      rewrite run_miss by done. simpl. by rewrite He.
Qed.

(** ** Calls with a field filter *)

Lemma ids_to_fetch_include w id (kind : string) (r : nat) :
  ids_to_fetch w id kind (Some r) = requested id.
Proof.
  unfold ids_to_fetch, cached_for, dict_keys. by rewrite map_to_list_empty.
Qed.

Lemma ids_to_fetch_nil w id (kind : string) include :
  requested id = [] → ids_to_fetch w id kind include = [].
Proof.
  intros E. destruct (ids_to_fetch w id kind include) as [|i rest] eqn:Hrest;
    [done|].
  assert (i ∈ requested id) as Hi.
  { apply (fetched_is_requested w id kind include). rewrite Hrest. by left. }
  rewrite E in Hi. by apply elem_of_nil in Hi.
Qed.

(** C4, amended: under a field filter the store is bypassed: it is not
    read, not written, and its contents stay as they were. The only call
    made is the remote fetch, which asks for every requested identity,
    cached or not; it is made whenever the request is not the empty list,
    and not made for the empty list. *)
Theorem field_filter_bypasses_store func id (missing_ok : bool)
    (kind : string) (r : nat) w :
  let run := _get_with_cache func id missing_ok kind (Some r) w in
  w_store run.1 = w_store w
  ∧ w_trace run.1 = w_trace w ++ new_events w run.1
  ∧ new_events w run.1
    = (if decide (requested id = []) then []
       else [EvFetch (payload_for w id kind (Some r))])
  ∧ p_ids (payload_for w id kind (Some r)) = requested id.
Proof.
  simpl.
  destruct (run_new_events func id missing_ok kind (Some r) w) as [Ht Hev].
  split; [|split; [done|split]].
  - destruct (decide (ids_to_fetch w id kind (Some r) = [])) as [E|Hne].
    + by rewrite run_hit.
    + rewrite run_miss by done. simpl.
      by destruct (func _) as [e|[results to_cache]].
  - rewrite Hev. simpl. rewrite ids_to_fetch_include.
    destruct (decide _); [done|].
    by destruct (func _) as [e|[results to_cache]].
  - simpl. apply ids_to_fetch_include.
Qed.

(** C10, amended: a call with a field filter that lacks ["ids"] and a
    request that is not the empty list appends ["ids"] to the caller's list
    in place, before the payload is built: the payload carries the longer
    list, and the caller's reference still holds it after the call,
    whether the call returns or raises. *)
Theorem include_gets_ids_appended func id (missing_ok : bool)
    (kind : string) (r : nat) (inc : list string) w :
  w_heap w !! r = Some inc →
  "ids" ∉ inc →
  requested id ≠ [] →
  let run := _get_with_cache func id missing_ok kind (Some r) w in
  w_heap run.1 = <[r := inc ++ ["ids"]]> (w_heap w)
  ∧ w_heap run.1 !! r = Some (inc ++ ["ids"])
  ∧ EvFetch (Payload (Some (inc ++ ["ids"])) (requested id))
    ∈ new_events w run.1.
Proof.
  intros Hr Hnin Hne. simpl.
  assert (heap_after w (Some r) = <[r := inc ++ ["ids"]]> (w_heap w)) as Hh.
  { unfold heap_after. rewrite Hr. simpl. by rewrite decide_False. }
  assert (w_heap (_get_with_cache func id missing_ok kind (Some r) w).1
          = <[r := inc ++ ["ids"]]> (w_heap w)) as Hw.
  { rewrite run_miss by by rewrite ids_to_fetch_include. simpl.
    by destruct (func _) as [e|[results to_cache]]. }
  split; [done|]. split; [by rewrite Hw, lookup_insert_eq|].
  destruct (run_new_events func id missing_ok kind (Some r) w) as [_ ->].
  simpl. rewrite decide_False by by rewrite ids_to_fetch_include.
  unfold payload_for. rewrite Hh, lookup_insert_eq, ids_to_fetch_include.
  simpl. by left.
Qed.

(** ** The empty request *)

(** C7, amended: for the empty list a call returns the empty list without
    invoking the remote fetch function, without writing the store and
    without touching the [include] list. With no field filter it still
    calls the store's [get] once, with the empty list of ids; with a field
    filter it makes no call at all. *)
Theorem empty_request func (missing_ok : bool) (kind : string) include w :
  _get_with_cache func (Many []) missing_ok kind include w
  = (World (w_store w) (w_heap w)
       (w_trace w ++ match include with
                     | None => [EvCacheGet [] kind]
                     | Some _ => []
                     end),
     inr (OutList [])).
Proof.
  rewrite run_hit by by apply ids_to_fetch_nil. by destruct include.
Qed.

(** ** Duplicate identities *)

(** C5, amended: for a request in which no identity found in the cache is
    requested more than once, a call makes one remote fetch when some
    identity is not in the cache and none otherwise. The fetch lists the
    requested identities that are not in the cache, and only those, in
    input order and once per occurrence: an identity requested twice is
    listed twice. The output is one slot per input occurrence, each the
    value of the identity at that position under one mapping. *)
Theorem duplicates_fetched_per_occurrence func (l : list raw_id)
    (missing_ok : bool) (kind : string) include w :
  NoDup (filter (λ i, i ∈ dom (cached_for w (Many l) kind include))
           (str <$> l)) →
  let run := _get_with_cache func (Many l) missing_ok kind include w in
  let rest :=
    filter (λ i, i ∉ dom (cached_for w (Many l) kind include)) (str <$> l) in
  List.filter is_fetch (new_events w run.1)
  = (if decide (rest = []) then []
     else [EvFetch (payload_for w (Many l) kind include)])
  ∧ p_ids (payload_for w (Many l) kind include) = rest
  ∧ (∀ out, run.2 = inr out →
       ∃ results, out = OutList (dict_get results <$> (str <$> l))).
Proof.
  intros Hnd. simpl.
  pose proof (ids_to_fetch_filter w (Many l) kind include Hnd) as Hrest.
  simpl in Hrest. split; [|split].
  - destruct (run_new_events func (Many l) missing_ok kind include w) as [_ ->].
    rewrite List.filter_app, Hrest.
    replace (List.filter is_fetch (read_events (Many l) kind include))
      with (@nil (event entity)) by by destruct include.
    simpl. destruct (decide _); [done|]. simpl. f_equal.
    destruct (func _) as [e|[results to_cache]]; [done|].
    by destruct include.
  - done.
  - intros out.
    destruct (decide (ids_to_fetch w (Many l) kind include = [])) as [E|Hne].
    + rewrite run_hit by done. simpl. intros [= <-]. by eexists.
    + rewrite run_miss by done. simpl.
      destruct (func _) as [e|[results to_cache]]; simpl; [done|].
      destruct (decide _); [done|]. intros [= <-]. by eexists.
Qed.

(** ** Two calls in a row *)

Lemma store_of_insert_store (st : gmap string (gmap string (option entity)))
    to_cache (kind : string) :
  store_of (insert_store st to_cache kind) kind = to_cache ∪ store_of st kind.
Proof. unfold insert_store. unfold store_of at 1. by rewrite lookup_insert_eq. Qed.

Lemma dict_get_lookup_store (st : gmap string (gmap string (option entity)))
    (ids : list string) (kind i : string) :
  i ∈ ids → dict_get (lookup_store st ids kind) i = dict_get (store_of st kind) i.
Proof.
  intros Hi. unfold dict_get.
  destruct (store_of st kind !! i) as [v|] eqn:E.
  - by rewrite (proj2 (lookup_store_Some st ids kind i v)).
  - destruct (lookup_store st ids kind !! i) as [v|] eqn:E'; [|done].
    apply lookup_store_Some in E' as [E' _]. by rewrite E in E'.
Qed.

(** C6, amended: two calls in a row with the same duplicate-free request,
    the same kind and no field filter, where some requested identity is
    not in the cache before the first call and the fetch of the first call
    returns every identity the cache lacked as cacheable, make exactly one
    remote fetch in total: the first call fetches once and writes what it
    fetched into the store, and the second call is served from the store
    with no remote fetch. *)
Theorem second_call_served_from_cache func id (missing_ok : bool)
    (kind : string) w results to_cache :
  NoDup (requested id) →
  (∃ i, i ∈ requested id ∧ i ∉ dom (store_of (w_store w) kind)) →
  func (payload_for w id kind None) = inr (results, to_cache) →
  (∀ i, i ∈ requested id → i ∉ dom (store_of (w_store w) kind) →
        i ∈ dom to_cache) →
  let w1 := first_call func id missing_ok kind w in
  let run2 := second_call func id missing_ok kind w in
  fetch_calls (new_events w w1) = 1
  ∧ EvCachePut to_cache kind ∈ new_events w w1
  ∧ w_store w1 = insert_store (w_store w) to_cache kind
  ∧ fetch_calls (new_events w1 run2.1) = 0
  ∧ fetch_calls (w_trace run2.1) = fetch_calls (w_trace w) + 1
  ∧ run2.2 = inr (ordered (store_of (w_store w1) kind) (make_str id)).
Proof.
  intros Hnd (i0 & Hi0 & Hs0) Hf Hcov. simpl.
  unfold second_call. set (w1 := first_call func id missing_ok kind w).
  assert (ids_to_fetch w id kind None ≠ []) as Hne.
  { intros E. assert (i0 ∈ ids_to_fetch w id kind None) as H.
    { apply uncached_is_fetched; [done|].
      rewrite elem_of_dom_cached_for. tauto. }
    rewrite E in H. by apply elem_of_nil in H. }
  assert (fetch_calls (new_events w w1) = 1) as Hone.
  { unfold w1, first_call. rewrite run_fetch_calls. by rewrite decide_False. }
  assert (w_store w1 = insert_store (w_store w) to_cache kind) as Hst.
  { unfold w1, first_call. rewrite run_miss by done. simpl. by rewrite Hf. }
  assert (ids_to_fetch w1 id kind None = []) as Hhit.
  { apply no_duplicate_full_hit; [done|]. intros i Hi.
    rewrite elem_of_dom_cached_for. split; [done|]. split; [done|].
    rewrite Hst, store_of_insert_store, dom_union_L, elem_of_union.
    destruct (decide (i ∈ dom (store_of (w_store w) kind))); [by right|].
    left. by apply Hcov. }
  assert (fetch_calls
            (new_events w1 (_get_with_cache func id missing_ok kind None w1).1)
          = 0) as Hzero.
  { rewrite run_fetch_calls. by rewrite decide_True. }
  split; [done|]. split; [|split; [done|split; [done|split]]].
  - unfold w1, first_call.
    destruct (run_new_events func id missing_ok kind None w) as [_ ->].
    rewrite decide_False by done. rewrite Hf. simpl.
    right. right. by left.
  - destruct (run_new_events func id missing_ok kind None w1) as [-> _].
    rewrite fetch_calls_app, Hzero.
    unfold w1 at 1, first_call.
    destruct (run_new_events func id missing_ok kind None w) as [-> _].
    fold (first_call func id missing_ok kind w). fold w1.
    rewrite fetch_calls_app, Hone. lia.
  - rewrite run_hit by done. simpl. f_equal. apply ordered_ext.
    intros i Hi. by apply dict_get_lookup_store.
Qed.

(** What does hold of a full hit: a duplicate-free request whose
    identities are all in the store is answered from the store, and the
    only call made is the cache read. *)
Lemma full_hit_without_duplicates func id (missing_ok : bool)
    (kind : string) w :
  NoDup (requested id) →
  (∀ i, i ∈ requested id → i ∈ dom (store_of (w_store w) kind)) →
  _get_with_cache func id missing_ok kind None w
  = (World (w_store w) (w_heap w)
       (w_trace w ++ [EvCacheGet (requested id) kind]),
     inr (ordered (store_of (w_store w) kind) (make_str id))).
Proof.
  intros Hnd Hall. rewrite run_hit.
  - simpl. do 2 f_equal. apply ordered_ext. intros i Hi.
    by apply dict_get_lookup_store.
  - apply no_duplicate_full_hit; [done|]. intros i Hi.
    rewrite elem_of_dom_cached_for. auto.
Qed.

End Properties.

(** * The properties at work on the small server *)

(** C3: the code at a request that repeats a cached identity. Identity 1
    is in the store and is the only identity requested, yet the call does
    not stop at the cache: the loop removes one of the two occurrences of
    ["1"], the other is left in [ids], and the fetch function is invoked
    for it. *)
Theorem cached_duplicate_is_fetched :
  requested (Many [IntId 1; IntId 1]) = ["1"; "1"]
  ∧ store_of (w_store warm) "molecule" !! "1" = Some (Some "H2O")
  ∧ _get_with_cache serve (Many [IntId 1; IntId 1]) false "molecule" None warm
    = (World (w_store warm) (w_heap warm)
         [EvCacheGet ["1"; "1"] "molecule";
          EvFetch (Payload None ["1"]);
          EvCachePut (<["1" := Some "H2O"]> ∅) "molecule"],
       inr (OutList [Some "H2O"; Some "H2O"])).
Proof. repeat split; vm_compute; reflexivity. Qed.

(** C4, as stated, fails: with a field filter and the empty list, the
    remote fetch function is not invoked. *)
Lemma field_filter_empty_request_no_fetch :
  fetch_calls
    (new_events warm
       (_get_with_cache serve (Many []) false "molecule" (Some 0) warm).1)
  = 0.
Proof. vm_compute. reflexivity. Qed.

(** C5, as stated, fails: the request [[1, 1, 2]] with nothing cached is
    fetched as [["1", "1", "2"]]; identity 1 is listed twice. *)
Lemma duplicate_listed_twice_in_payload :
  new_events cold
    (_get_with_cache serve (Many [IntId 1; IntId 1; IntId 2]) false
       "molecule" None cold).1
  = [EvCacheGet ["1"; "1"; "2"] "molecule";
     EvFetch (Payload None ["1"; "1"; "2"]);
     EvCachePut molecules "molecule"]
  ∧ ¬ NoDup ["1"; "1"; "2"].
Proof.
  split; [vm_compute; reflexivity|].
  intros H. apply NoDup_cons in H as [H _]. apply H. by left.
Qed.

(** C6, as stated, fails: identity 3 is not on the server, so the first
    call (with [missing_ok]) caches nothing for it and the second call
    fetches again: two remote fetches in total. *)
Lemma missing_identity_fetched_again :
  fetch_calls
    (w_trace (second_call serve (Many [IntId 1; IntId 3]) true
                "molecule" cold).1)
  = 2.
Proof. vm_compute. reflexivity. Qed.

(** C7, as stated, fails: with no field filter the empty request does
    consult the cache store: [get] is called with the empty list. *)
Lemma empty_request_reads_store :
  new_events cold
    (_get_with_cache serve (Many []) false "molecule" None cold).1
  = [EvCacheGet [] "molecule"].
Proof. vm_compute. reflexivity. Qed.

(** C10, as stated, fails: with a field filter lacking ["ids"] and the
    empty list, the caller's list is left as it was. *)
Lemma empty_request_leaves_include :
  ("ids" ∉ ["name"])
  ∧ w_heap cold !! 0 = Some ["name"]
  ∧ w_heap (_get_with_cache serve (Many []) false "molecule" (Some 0) cold).1
    !! 0 = Some ["name"].
Proof. split; [compute_done|]. split; vm_compute; reflexivity. Qed.

(** C1 at a mixed request: 2 is fetched, 1 comes from the cache, twice. *)
Lemma results_in_input_order_witness :
  (_get_with_cache serve (Many [IntId 2; IntId 1; StrId "1"]) true
     "molecule" None warm).2
  = inr (OutList [Some "CH4"; Some "H2O"; Some "H2O"]).
Proof.
  rewrite (results_in_input_order serve [IntId 2; IntId 1; StrId "1"] true
             "molecule" None warm molecules molecules).
  - vm_compute. reflexivity.
  - intros _. vm_compute. reflexivity.
  - left. reflexivity.
Defined.

(** [output_shape_follows_input] at the scalar 2 and at the one-element
    list [[2]]. *)
Lemma output_shape_follows_input_witness :
  (∃ v, (_get_with_cache serve (One (IntId 2)) false "molecule" None warm).2
        = inr (OutOne v))
  ∧ (∃ vs, (_get_with_cache serve (Many [IntId 2]) false "molecule" None warm).2
           = inr (OutList vs) ∧ length vs = 1).
Proof.
  split.
  - destruct (output_shape_follows_input serve (One (IntId 2)) false
                "molecule" None warm) as [Hshape Hret].
    destruct (Hret (<["2" := Some "CH4"]> ∅) (<["2" := Some "CH4"]> ∅))
      as [out Hout].
    + intros _. vm_compute. reflexivity.
    + right. intros i Hi. right. apply list_elem_of_singleton in Hi as ->.
      compute_done.
    + destruct (Hshape out Hout) as [v ->]. by exists v.
  - destruct (output_shape_follows_input serve (Many [IntId 2]) false
                "molecule" None warm) as [Hshape Hret].
    destruct (Hret (<["2" := Some "CH4"]> ∅) (<["2" := Some "CH4"]> ∅))
      as [out Hout].
    + intros _. vm_compute. reflexivity.
    + right. intros i Hi. right. apply list_elem_of_singleton in Hi as ->.
      compute_done.
    + destruct (Hshape out Hout) as (vs & -> & Hlen). by exists vs.
Defined.

(** C2 at [[1, 3]]: 1 is cached, 3 is not on the server. *)
Lemma missing_identities_witness :
  ∃ missing : gset string,
    "3" ∈ missing
    ∧ (_get_with_cache serve (Many [IntId 1; IntId 3]) false
         "molecule" None warm).2
      = inl (KeyError (NoObjectsFound missing))
    ∧ ∃ out,
        (_get_with_cache serve (Many [IntId 1; IntId 3]) true
           "molecule" None warm).2 = inr out
        ∧ slots out !! 1 = Some None.
Proof.
  assert ("3" ∈ requested (Many [IntId 1; IntId 3])) as Hreq by compute_done.
  assert ("3" ∉ dom (cached_for warm (Many [IntId 1; IntId 3]) "molecule" None))
    as Hc by compute_done.
  assert ("3" ∉ dom (∅ : gmap string (option string))) as Hr by compute_done.
  destruct (missing_identities serve (Many [IntId 1; IntId 3]) false
              "molecule" None warm ∅ ∅ "3") as (missing & Hm & Hraise & _);
    [vm_compute; reflexivity|done..|].
  destruct (missing_identities serve (Many [IntId 1; IntId 3]) true
              "molecule" None warm ∅ ∅ "3") as (missing' & Hm' & _ & Hret);
    [vm_compute; reflexivity|done..|].
  exists missing. split; [by apply Hm|]. split; [by apply Hraise|].
  destruct (Hret eq_refl) as (out & Hout & _ & Hslot).
  exists out. split; [done|].
  apply (Hslot 1 "3"); [reflexivity|by apply Hm'].
Defined.

(** C8 at a server that cannot be reached. *)
Lemma one_fetch_errors_propagate_witness :
  (_get_with_cache unreachable (Many [IntId 1; IntId 2]) false
     "molecule" None warm).2
  = inl (FetchError "connection refused")
  ∧ fetch_calls
      (new_events warm
         (_get_with_cache unreachable (Many [IntId 1; IntId 2]) false
            "molecule" None warm).1) = 1.
Proof.
  destruct (one_fetch_errors_propagate unreachable (Many [IntId 1; IntId 2])
              false "molecule" None warm) as (_ & _ & Hone & Herr).
  split.
  - apply (Herr (Payload None ["2"]) "connection refused");
      [|reflexivity].
    apply list_elem_of_In. vm_compute. right. by left.
  - apply Hone. exists "2". split; compute_done.
Defined.

(** C5 at [[1, 1, 2]] with nothing cached. *)
Lemma duplicates_fetched_per_occurrence_witness :
  List.filter is_fetch
    (new_events cold
       (_get_with_cache serve (Many [IntId 1; IntId 1; IntId 2]) false
          "molecule" None cold).1)
  = [EvFetch (Payload None ["1"; "1"; "2"])].
Proof.
  destruct (duplicates_fetched_per_occurrence serve
              [IntId 1; IntId 1; IntId 2] false "molecule" None cold)
    as (Hev & _ & _).
  - vm_compute. apply NoDup_nil. exact I.
  - rewrite Hev. vm_compute. reflexivity.
Defined.

(** C6 at [[1, 2]] with 1 cached: the one fetch is for 2. *)
Lemma second_call_served_from_cache_witness :
  fetch_calls
    (w_trace (second_call serve (Many [IntId 1; IntId 2]) false
                "molecule" warm).1) = 1
  ∧ (second_call serve (Many [IntId 1; IntId 2]) false "molecule" warm).2
    = inr (OutList [Some "H2O"; Some "CH4"]).
Proof.
  destruct (second_call_served_from_cache serve (Many [IntId 1; IntId 2])
              false "molecule" warm
              (<["2" := Some "CH4"]> ∅) (<["2" := Some "CH4"]> ∅))
    as (_ & _ & _ & _ & Htotal & Hres).
  - compute_done.
  - exists "2". split; compute_done.
  - vm_compute. reflexivity.
  - intros i Hi Hn. apply elem_of_cons in Hi as [->|Hi].
    + exfalso. apply Hn. compute_done.
    + apply list_elem_of_singleton in Hi as ->. compute_done.
  - split; [exact Htotal|]. rewrite Hres. vm_compute. reflexivity.
Defined.

(** C10 at the scalar 1 with the filter [["name"]]. *)
Lemma include_gets_ids_appended_witness :
  w_heap (_get_with_cache serve (One (IntId 1)) false "molecule" (Some 0)
            warm).1 !! 0
  = Some ["name"; "ids"].
Proof.
  destruct (include_gets_ids_appended serve (One (IntId 1)) false "molecule"
              0 ["name"] warm) as (_ & Hheap & _).
  - vm_compute. reflexivity.
  - compute_done.
  - discriminate.
  - exact Hheap.
Defined.

(** * A request given as a tuple *)

Section TupleProperties.

Context {entity remote_exc : Type}.

Implicit Types (func : fetcher entity remote_exc) (w : world entity).

(** A call on a tuple does to the cache store, to the caller's [include]
    list and to the two collaborators what the call on the list of the same
    ids does: the two calls differ in what they hand back only. *)
Lemma tuple_call_world func id (missing_ok : bool) (kind : string)
    include w :
  (_get_with_cache_tuple func id missing_ok kind include w).1
  = (_get_with_cache func (Many id) missing_ok kind include w).1.
Proof.
  unfold _get_with_cache_tuple, _get_with_cache, bind_tuple, bind, step,
    ret_tuple, raise_tuple, raise, ret, lift, subscript_tuple,
    make_str_tuple, make_list_tuple.
  simpl.
  repeat (case_match; simplify_eq/=; try done).
Qed.

(** What a call on a tuple returns, when it returns, is the single value
    [None]: never a list, whatever was cached or fetched. *)
Lemma tuple_returns_none func id (missing_ok : bool) (kind : string)
    include w out :
  (_get_with_cache_tuple func id missing_ok kind include w).2 = inr out →
  out = OutOne None.
Proof.
  unfold _get_with_cache_tuple, bind_tuple, step, ret_tuple, raise_tuple,
    subscript_tuple, dict_get_tuple.
  repeat (case_match; simpl; try done).
  all: by intros [= <-].
Qed.

End TupleProperties.

(** C9: a sequence that is no [list] does not get a sequence back. On the
    tuple [(1, 2)], with nothing cached, the call fetches both molecules in
    one remote call and returns the single value [None], where the call on
    the list [[1, 2]] returns the two molecules; on the tuple [(1,)], with
    molecule 1 cached, the call raises the [KeyError] of
    [cached[("1",)]]. *)
Theorem tuple_request_answered_as_scalar :
  (_get_with_cache_tuple serve [IntId 1; IntId 2] false "molecule" None
     cold).2 = inr (OutOne None)
  ∧ new_events cold
      (_get_with_cache_tuple serve [IntId 1; IntId 2] false "molecule" None
         cold).1
    = [EvCacheGet ["1"; "2"] "molecule";
       EvFetch (Payload None ["1"; "2"]);
       EvCachePut molecules "molecule"]
  ∧ (_get_with_cache serve (Many [IntId 1; IntId 2]) false "molecule" None
       cold).2 = inr (OutList [Some "H2O"; Some "CH4"])
  ∧ (_get_with_cache_tuple serve [IntId 1] false "molecule" None warm).2
    = inl (KeyMissingTuple ["1"]).
Proof. vm_compute. done. Qed.

(** * Properties of the dataset snapshot *)

(** ** Extending a list by the names it lacks *)

Lemma extend_new_spec (new l : list string) :
  ∃ added, Dataset.extend_new l new = l ++ added
    ∧ (NoDup l → NoDup (l ++ added))
    ∧ ∀ x, x ∈ l ++ added ↔ x ∈ l ∨ x ∈ new.
Proof.
  revert l. induction new as [|y new IH]; intros l; simpl.
  - exists []. rewrite app_nil_r. split; [done|]. split; [done|].
    intros x. rewrite elem_of_nil. tauto.
  - destruct (decide (y ∈ l)) as [Hy|Hy].
    + destruct (IH l) as (added & -> & Hnd & Hin).
      exists added. split; [done|]. split; [done|].
      intros x. rewrite Hin, elem_of_cons.
      split; [tauto|]. intros [?|[->|?]]; tauto.
    + destruct (IH (l ++ [y])) as (added & -> & Hnd & Hin).
      exists (y :: added). rewrite <- app_assoc in *. simpl in *.
      split; [done|]. split.
      * intros Hl. apply Hnd. apply NoDup_app. split; [done|].
        split; [|apply NoDup_singleton].
        intros x Hx ->%list_elem_of_singleton. done.
      * intros x. rewrite Hin, elem_of_app, list_elem_of_singleton,
          elem_of_cons. tauto.
Qed.

Lemma extend_new_present (new l : list string) :
  (∀ x, x ∈ new → x ∈ l) → Dataset.extend_new l new = l.
Proof.
  induction new as [|y new IH]; intros H; simpl; [done|].
  rewrite decide_True by (apply H; left).
  apply IH. intros x Hx. apply H. by right.
Qed.

Section DatasetProperties.

Import Dataset.

Local Set Default Proof Using "Type".

Context {record_data record_obj entry specification other_metadata
         answer error : Type}.
Context (record_from_datamodel : record_data → option record_obj).
Context (name_of entry_name_of : entry → string).
Context (with_entry_name : string → entry → entry).
Context (lower : string → string).
Context (make_list_none : option (list string)).

Implicit Types (r : @raw_data record_data entry specification other_metadata).
Implicit Types (d : @dataset record_data entry specification other_metadata).
Implicit Types (c : @client record_data entry other_metadata answer error).
Implicit Types (items record_info : list (@record_item record_data)).
Implicit Types (specs : list (string * specification)).

(** ** Entry names *)

(** X1: [_append_entry_names] never repeats a name. The names the
    snapshot had stay where they were, the new ones go after them, each
    once, and a snapshot free of duplicates stays free of them; afterwards
    the snapshot holds the old names and the given ones and no other. *)
Theorem append_entry_names_no_duplicates (new_names : list string) r :
  NoDup (default [] (entry_names r)) →
  ∃ added,
    entry_names (_append_entry_names new_names r)
    = Some (default [] (entry_names r) ++ added)
    ∧ NoDup (default [] (entry_names r) ++ added)
    ∧ ∀ x, x ∈ default [] (entry_names r) ++ added ↔
           x ∈ default [] (entry_names r) ∨ x ∈ new_names.
Proof.
  intros Hnd.
  destruct (extend_new_spec new_names (default [] (entry_names r)))
    as (added & E & Hnd' & Hin).
  exists added. split; [|split; [by apply Hnd'|done]].
  unfold _append_entry_names.
  destruct r as [? ? ? ? ? [l|] ? ? ?]; simpl in E |- *; by rewrite E.
Qed.

(** X2: appending the same names a second time changes nothing. *)
Theorem append_entry_names_idempotent (new_names : list string) r :
  _append_entry_names new_names (_append_entry_names new_names r)
  = _append_entry_names new_names r.
Proof.
  destruct (extend_new_spec new_names (default [] (entry_names r)))
    as (added & E & _ & Hin).
  assert (extend_new (extend_new (default [] (entry_names r)) new_names) new_names
          = extend_new (default [] (entry_names r)) new_names) as Hfix.
  { apply extend_new_present. intros x Hx. rewrite E. apply Hin. by right. }
  unfold _append_entry_names.
  destruct r as [? ? ? ? ? [l|] ? ? ?]; simpl in Hfix |- *; by rewrite Hfix.
Qed.

(** ** Record items *)

Lemma find_record_app items1 items2 (e s : string) :
  find_record record_from_datamodel (items1 ++ items2) e s
  = if decide ((s, e) ∈ item_key <$> items1)
    then find_record record_from_datamodel items1 e s
    else find_record record_from_datamodel items2 e s.
Proof.
  induction items1 as [|x items1 IH].
  - rewrite decide_False; [done|]. apply not_elem_of_nil.
  - rewrite fmap_cons. simpl find_record.
    destruct (decide (specification_name x = s ∧ entry_name x = e))
      as [[<- <-]|Hne].
    + rewrite decide_True; [done|]. by left.
    + rewrite IH. destruct (decide ((s, e) ∈ item_key <$> items1)) as [Hin|Hnin].
      * rewrite decide_True; [done|]. by right.
      * rewrite decide_False; [done|].
        intros [Heq|?]%elem_of_cons; [|done].
        apply Hne. unfold item_key in Heq. by inversion Heq.
Qed.

Lemma find_record_absent items (e s : string) :
  (s, e) ∉ item_key <$> items →
  find_record record_from_datamodel items e s = None.
Proof.
  induction items as [|x items IH]; intros H; simpl; [done|].
  rewrite decide_False.
  - apply IH. intros ?. apply H. by right.
  - intros [<- <-]. apply H. by left.
Qed.

(** Dropping items with other names does not change what a lookup
    finds. *)
Lemma find_record_filter (P : @record_item record_data → Prop)
    `{!∀ x, Decision (P x)} items (e s : string) :
  (∀ x, x ∈ items → item_key x = (s, e) → P x) →
  find_record record_from_datamodel (filter P items) e s
  = find_record record_from_datamodel items e s.
Proof.
  induction items as [|x items IH]; intros HP; [done|].
  rewrite filter_cons. simpl.
  destruct (decide (specification_name x = s ∧ entry_name x = e))
    as [[Hs He]|Hne].
  - rewrite decide_True.
    + simpl. by rewrite decide_True.
    + apply HP; [by left|]. unfold item_key. by rewrite Hs, He.
  - destruct (decide (P x)); simpl.
    + rewrite decide_False by done. apply IH.
      intros y Hy. apply HP. by right.
    + apply IH. intros y Hy. apply HP. by right.
Qed.

Lemma find_record_merge items record_info (e s : string) :
  find_record record_from_datamodel
    (merge_record_items (Some items) record_info) e s
  = if decide ((s, e) ∈ item_key <$> record_info)
    then find_record record_from_datamodel record_info e s
    else find_record record_from_datamodel items e s.
Proof.
  unfold merge_record_items. rewrite find_record_app.
  set (kept := filter (λ x, item_key x ∉ item_key <$> record_info) items).
  destruct (decide ((s, e) ∈ item_key <$> record_info)) as [Hnew|Hold].
  - rewrite decide_False; [done|].
    intros (x & Hk & Hx)%list_elem_of_fmap.
    apply list_elem_of_filter in Hx as [Hx _]. apply Hx. by rewrite <- Hk.
  - assert (find_record record_from_datamodel kept e s
            = find_record record_from_datamodel items e s) as Hkept.
    { apply find_record_filter. intros x _ Hk. by rewrite Hk. }
    destruct (decide ((s, e) ∈ item_key <$> kept)) as [Hin|Hnin]; [done|].
    rewrite find_record_absent by done.
    by rewrite <- Hkept, find_record_absent.
Qed.

(** X3: after [fetch_record_items] has merged what the server sent, a
    lookup of an entry and specification that came with the download finds
    the downloaded record (the first such item of the download), and a
    lookup of any other pair finds what it found before. *)
Theorem lookup_after_fetch c (entry_names' specification_names' :
    option (shaped string)) d record_info (e s : string) :
  answer_record_items c
    (Request "post" (dataset_url d "/record_items/bulkFetch")
       (FetchRecordItemsBody (make_list_opt make_list_none entry_names')
          (make_list_opt make_list_none specification_names')
          ["*"; "record"]))
  = inr record_info →
  _lookup_record record_from_datamodel
    (raw (fetch_record_items make_list_none c entry_names'
            specification_names' d).1) e s
  = if decide ((s, e) ∈ item_key <$> record_info)
    then find_record record_from_datamodel record_info e s
    else _lookup_record record_from_datamodel (raw d) e s.
Proof.
  intros Hans.
  unfold fetch_record_items, bind, auto_request, modify_raw. simpl.
  rewrite Hans. simpl. unfold _lookup_record. simpl.
  destruct (record_items (raw d)) as [items|].
  - apply find_record_merge.
  - simpl. destruct (decide _) as [|Hnin]; [done|].
    by apply find_record_absent.
Qed.

(** X4: the merge of [fetch_record_items] keeps the pairs of specification
    and entry name unique: when no pair occurs twice in the snapshot nor
    in the download, none occurs twice afterwards. *)
Theorem fetch_keeps_item_keys_unique c (entry_names' specification_names' :
    option (shaped string)) d record_info :
  answer_record_items c
    (Request "post" (dataset_url d "/record_items/bulkFetch")
       (FetchRecordItemsBody (make_list_opt make_list_none entry_names')
          (make_list_opt make_list_none specification_names')
          ["*"; "record"]))
  = inr record_info →
  NoDup (item_key <$> default [] (record_items (raw d))) →
  NoDup (item_key <$> record_info) →
  ∃ items,
    record_items
      (raw (fetch_record_items make_list_none c entry_names'
              specification_names' d).1) = Some items
    ∧ NoDup (item_key <$> items)
    ∧ ∀ x, x ∈ record_info → x ∈ items.
Proof.
  intros Hans Hold Hnew.
  unfold fetch_record_items, bind, auto_request, modify_raw. simpl.
  rewrite Hans. simpl. eexists. split; [done|].
  destruct (record_items (raw d)) as [items|]; simpl in Hold |- *.
  - split; [|intros x Hx; apply elem_of_app; by right].
    rewrite fmap_app. apply NoDup_app. split; [|split; [|done]].
    + clear -Hold. induction items as [|x items IH]; [constructor|].
      rewrite fmap_cons in Hold. apply NoDup_cons in Hold as [Hx Hold].
      rewrite filter_cons. destruct (decide _); [|by apply IH].
      rewrite fmap_cons. apply NoDup_cons. split; [|by apply IH].
      intros (y & Hk & Hy)%list_elem_of_fmap. apply Hx.
      apply list_elem_of_fmap. exists y. split; [done|].
      by apply list_elem_of_filter in Hy as [_ Hy].
    + intros k (x & -> & Hx)%list_elem_of_fmap.
      by apply list_elem_of_filter in Hx as [Hx _].
  - done.
Qed.

(** X5: [get_record] does not contact the server for a record the
    snapshot has: the record is returned, no request is sent and the
    snapshot is left as it was. *)
Theorem get_record_cached c d (e s : string) (rec : record_obj) :
  _lookup_record record_from_datamodel (raw d) e s = Some rec →
  get_record record_from_datamodel make_list_none c e s d
  = (d, inr (Some rec)).
Proof.
  intros H. unfold get_record, bind, get_raw, ret. simpl. rewrite H.
  simpl. by rewrite H.
Qed.

(** X6: for a record the snapshot lacks, [get_record] sends exactly one
    request, for that one entry and that one specification; if it fails,
    the error is raised and the snapshot is left as it was, and if it
    succeeds, the downloaded items are merged in and the record looked up
    again. *)
Theorem get_record_fetches_once c d (e s : string) :
  _lookup_record record_from_datamodel (raw d) e s = None →
  let rq :=
    Request "post" (dataset_url d "/record_items/bulkFetch")
      (FetchRecordItemsBody (Some [e]) (Some [s]) ["*"; "record"]) in
  let run := get_record record_from_datamodel make_list_none c e s d in
  sent run.1 = sent d ++ [rq]
  ∧ match answer_record_items c rq with
    | inl err => run.2 = inl (RequestError err) ∧ raw run.1 = raw d
    | inr record_info =>
        run.2 = inr (find_record record_from_datamodel record_info e s)
        ∧ record_items (raw run.1)
          = Some (merge_record_items (record_items (raw d)) record_info)
    end.
Proof.
  intros H. simpl.
  unfold get_record, bind, get_raw, ret. simpl. rewrite H.
  unfold fetch_record_items, bind, auto_request, modify_raw. simpl.
  destruct (answer_record_items c _) as [err|record_info]; simpl; [done|].
  split; [done|]. split; [|done]. f_equal.
  unfold _lookup_record in H |- *. simpl.
  destruct (record_items (raw d)) as [items|]; [|done].
  rewrite find_record_merge.
  destruct (decide _) as [|Hnin]; [done|].
  by rewrite H, find_record_absent.
Qed.

(** ** The guards on an empty or absent list *)

(** [if l: l = [f(x) for x in l]] and [if l: l = [x for x in l if p(x)]]
    change nothing when the guard fails, and neither would the assignment:
    an absent list stays absent and an empty one empty. *)
Lemma guarded_record_items (g : list (@record_item record_data) →
    list (@record_item record_data)) r :
  g [] = [] →
  (if truthy (record_items r) then set_record_items (g <$> record_items r) r
   else r)
  = set_record_items (g <$> record_items r) r.
Proof.
  intros Hg. destruct r as [? ? ? ? ? ? ? ? [[|x l]|]]; simpl; try done.
  unfold set_record_items. simpl. by rewrite Hg.
Qed.

Lemma guarded_entry_names (g : list string → list string) r :
  g [] = [] →
  (if truthy (entry_names r) then set_entry_names (g <$> entry_names r) r
   else r)
  = set_entry_names (g <$> entry_names r) r.
Proof.
  intros Hg. destruct r as [? ? ? ? ? [[|x l]|] ? ? ?]; simpl; try done.
  unfold set_entry_names. simpl. by rewrite Hg.
Qed.

Lemma guarded_entries (g : list entry → list entry) r :
  g [] = [] →
  (if truthy (entries r) then set_entries (g <$> entries r) r else r)
  = set_entries (g <$> entries r) r.
Proof.
  intros Hg. destruct r as [? ? ? ? ? ? ? [[|x l]|] ?]; simpl; try done.
  unfold set_entries. simpl. by rewrite Hg.
Qed.

(** ** Looking up in renamed or filtered items *)

Lemma find_record_fmap (f : @record_item record_data → @record_item record_data)
    items (e s e' s' : string) :
  (∀ x, x ∈ items → record (f x) = record x) →
  (∀ x, x ∈ items → item_key (f x) = (s', e') ↔ item_key x = (s, e)) →
  find_record record_from_datamodel (f <$> items) e' s'
  = find_record record_from_datamodel items e s.
Proof.
  induction items as [|x items IH]; intros Hrec Hkey; [done|].
  rewrite fmap_cons. simpl.
  assert (x ∈ x :: items) as Hx by by left.
  destruct (decide (specification_name x = s ∧ entry_name x = e))
    as [[Hs He]|Hne].
  - rewrite decide_True.
    + by rewrite Hrec.
    + assert (item_key (f x) = (s', e')) as Hk.
      { apply Hkey; [done|]. unfold item_key. by rewrite Hs, He. }
      unfold item_key in Hk. by inversion Hk.
  - rewrite decide_False.
    + apply IH; intros y Hy; [apply Hrec|apply Hkey]; by right.
    + intros [Hs He]. apply Hne.
      assert (item_key x = (s, e)) as Hk.
      { apply Hkey; [done|]. unfold item_key. by rewrite Hs, He. }
      unfold item_key in Hk. by inversion Hk.
Qed.

Lemma find_record_none_fmap
    (f : @record_item record_data → @record_item record_data)
    items (e' s' : string) :
  (∀ x, x ∈ items → item_key (f x) ≠ (s', e')) →
  find_record record_from_datamodel (f <$> items) e' s' = None.
Proof.
  intros H. apply find_record_absent.
  intros (y & Hk & (x & -> & Hx)%list_elem_of_fmap)%list_elem_of_fmap.
  by apply (H x Hx).
Qed.

(** ** Specifications *)

Lemma renamed_singleton (old_name new_name k : string) :
  renamed {[old_name := new_name]} k
  = if decide (k = old_name) then new_name else k.
Proof.
  unfold renamed. destruct (decide (k = old_name)) as [->|Hne].
  - by rewrite lookup_singleton_eq.
  - by rewrite lookup_singleton_ne.
Qed.

Lemma odict_set_fresh (k : string) (v : specification) specs :
  k ∉ specs.*1 → odict_set k v specs = specs ++ [(k, v)].
Proof.
  induction specs as [|[k' v'] specs IH]; intros H; simpl; [done|].
  rewrite fmap_cons in H. apply not_elem_of_cons in H as [Hne H].
  rewrite decide_False by done. by rewrite IH.
Qed.

(** A renaming that sends no two keys to one name renames in place. *)
Lemma rename_keys_in_place (m : gmap string string) specs :
  NoDup (renamed m <$> specs.*1) →
  rename_keys m specs = (λ kv, (renamed m kv.1, kv.2)) <$> specs.
Proof.
  unfold rename_keys.
  assert (∀ acc,
    NoDup (acc.*1 ++ (renamed m <$> specs.*1)) →
    foldl (λ acc kv, odict_set (renamed m kv.1) kv.2 acc) acc specs
    = acc ++ ((λ kv, (renamed m kv.1, kv.2)) <$> specs)) as Hgen.
  { induction specs as [|[k v] specs IH]; intros acc Hnd; simpl.
    - by rewrite app_nil_r.
    - rewrite !fmap_cons in Hnd. simpl in Hnd.
      rewrite odict_set_fresh.
      + rewrite IH.
        * by rewrite <- app_assoc.
        * rewrite fmap_app. simpl. rewrite <- app_assoc. done.
      + apply NoDup_app in Hnd as (_ & Hd & _). intros Hin.
        apply (Hd _ Hin). by left. }
  intros Hnd. apply (Hgen []). done.
Qed.

Lemma renamed_keys_NoDup (old_name new_name : string) (keys : list string) :
  NoDup keys → new_name ∉ keys →
  NoDup (renamed {[old_name := new_name]} <$> keys).
Proof.
  intros Hnd Hnew. apply NoDup_fmap_2_strong; [|done].
  intros x y Hx Hy. rewrite !renamed_singleton.
  destruct (decide (x = old_name)), (decide (y = old_name)); congruence.
Qed.

(** The state a successful [rename_specification] leaves. *)
Lemma rename_specification_run c (old_name new_name : string) d (a : answer) :
  answer_plain c
    (Request "patch" (dataset_url d "/specifications")
       (NameMap {[old_name := new_name]})) = inr a →
  rename_specification c old_name new_name d
  = (Dataset (dataset_type d)
       (set_record_items
          (fmap (M := list)
             (rename_item_specification {[old_name := new_name]})
             <$> record_items (raw d))
          (set_specifications
             (rename_keys {[old_name := new_name]} (specifications (raw d)))
             (raw d)))
       (sent d ++ [Request "patch" (dataset_url d "/specifications")
                     (NameMap {[old_name := new_name]})]),
     inr a).
Proof.
  intros Hans. unfold rename_specification, bind, auto_request, modify_raw, ret.
  simpl. rewrite Hans. simpl.
  by destruct d as [ty [i n ln de ot en specs ents [[|x l]|]] st].
Qed.

(** X7: a successful [rename_specification] to a name that no
    specification of the snapshot bears renames in place: the
    specifications keep their order and their values, and only the key
    [old_name] becomes [new_name]. *)
Theorem rename_specification_in_place c (old_name new_name : string) d
    (a : answer) :
  answer_plain c
    (Request "patch" (dataset_url d "/specifications")
       (NameMap {[old_name := new_name]})) = inr a →
  NoDup (specifications (raw d)).*1 →
  new_name ∉ (specifications (raw d)).*1 →
  specifications (raw (rename_specification c old_name new_name d).1)
  = (λ kv, (if decide (kv.1 = old_name) then new_name else kv.1, kv.2))
      <$> specifications (raw d).
Proof.
  intros Hans Hnd Hnew. rewrite (rename_specification_run _ _ _ _ a Hans).
  simpl. rewrite rename_keys_in_place by by apply renamed_keys_NoDup.
  apply list_fmap_ext. intros i [k v] _. simpl. by rewrite renamed_singleton.
Qed.

(** X8: after a successful [rename_specification] to a name that no
    cached record item bears, the records are found under the new name:
    a lookup under [new_name] finds what a lookup under [old_name] found
    before, a lookup under [old_name] finds nothing any more, and lookups
    under other names are as before. *)
Theorem lookup_after_rename_specification c (old_name new_name : string) d
    (a : answer) :
  answer_plain c
    (Request "patch" (dataset_url d "/specifications")
       (NameMap {[old_name := new_name]})) = inr a →
  (∀ x, x ∈ default [] (record_items (raw d)) →
        specification_name x ≠ new_name) →
  old_name ≠ new_name →
  ∀ e s,
    _lookup_record record_from_datamodel
      (raw (rename_specification c old_name new_name d).1) e s
    = if decide (s = new_name)
      then _lookup_record record_from_datamodel (raw d) e old_name
      else if decide (s = old_name) then None
      else _lookup_record record_from_datamodel (raw d) e s.
Proof.
  intros Hans Hfresh Hne e s. rewrite (rename_specification_run _ _ _ _ a Hans).
  unfold _lookup_record. simpl.
  destruct (record_items (raw d)) as [items|]; simpl in Hfresh |- *;
    [|by repeat destruct (decide _)].
  assert (∀ x : @record_item record_data,
            item_key (rename_item_specification {[old_name := new_name]} x)
               = (if decide (specification_name x = old_name) then new_name
                  else specification_name x, entry_name x)) as Hkey.
  { intros x. unfold item_key. simpl. by rewrite renamed_singleton. }
  destruct (decide (s = new_name)) as [->|Hs].
  - apply find_record_fmap; [done|]. intros x Hx. rewrite Hkey.
    unfold item_key. specialize (Hfresh x Hx).
    destruct (decide (specification_name x = old_name)) as [->|Hx'].
    + split; intros [= <-]; done.
    + split; intros [= ? ?]; congruence.
  - destruct (decide (s = old_name)) as [->|Hs'].
    + apply find_record_none_fmap. intros x Hx. rewrite Hkey.
      destruct (decide (specification_name x = old_name)); congruence.
    + apply find_record_fmap; [done|]. intros x Hx. rewrite Hkey.
      unfold item_key.
      destruct (decide (specification_name x = old_name)) as [->|Hx'].
      * split; intros [= ? ?]; congruence.
      * done.
Qed.

(** X9: renaming a specification to an unused name and back restores the
    snapshot: when [new_name] is neither a specification of the snapshot
    nor the specification name of a cached record item, and both requests
    succeed, the snapshot after the two renamings is the one before. *)
Theorem rename_specification_round_trip c (old_name new_name : string) d
    (a1 a2 : answer) :
  answer_plain c
    (Request "patch" (dataset_url d "/specifications")
       (NameMap {[old_name := new_name]})) = inr a1 →
  answer_plain c
    (Request "patch" (dataset_url d "/specifications")
       (NameMap {[new_name := old_name]})) = inr a2 →
  NoDup (specifications (raw d)).*1 →
  new_name ∉ (specifications (raw d)).*1 →
  (∀ x, x ∈ default [] (record_items (raw d)) →
        specification_name x ≠ new_name) →
  raw (rename_specification c new_name old_name
         (rename_specification c old_name new_name d).1).1
  = raw d.
Proof.
  intros Hans1 Hans2 Hnd Hnew Hfresh.
  rewrite (rename_specification_run _ _ _ _ a1 Hans1). simpl.
  rewrite (rename_specification_run _ _ _ _ a2); [|exact Hans2]. simpl.
  assert (∀ k, k ≠ new_name →
            renamed {[new_name := old_name]}
              (renamed {[old_name := new_name]} k) = k) as Hback.
  { intros k Hk. rewrite !renamed_singleton.
    destruct (decide (k = old_name)) as [->|?].
    - by rewrite decide_True.
    - by rewrite decide_False. }
  rewrite (rename_keys_in_place {[old_name := new_name]})
    by by apply renamed_keys_NoDup.
  rewrite rename_keys_in_place.
  - destruct (raw d) as [i n ln de ot en specs ents its];
      simpl in Hnew, Hfresh |- *.
    unfold set_record_items, set_specifications. simpl. f_equal.
    + rewrite <- list_fmap_compose.
      rewrite <- (list_fmap_id specs) at 2.
      apply list_fmap_ext. intros j [k v] Hj. simpl. f_equal.
      apply Hback. intros ->. apply Hnew.
      apply list_elem_of_fmap. exists (new_name, v). split; [done|].
      by apply list_elem_of_lookup_2 in Hj.
    + destruct its as [items|]; [|done]. simpl. f_equal.
      rewrite <- list_fmap_compose.
      rewrite <- (list_fmap_id items) at 2.
      apply list_fmap_ext. intros j [sn en' rc] Hj.
      unfold rename_item_specification. simpl. f_equal.
      apply Hback. apply list_elem_of_lookup_2 in Hj. by apply (Hfresh _ Hj).
  - assert (renamed {[new_name := old_name]}
              <$> ((λ kv : string * specification,
                      (renamed {[old_name := new_name]} kv.1, kv.2))
                     <$> specifications (raw d)).*1
            = (specifications (raw d)).*1) as ->; [|done].
    rewrite <- !list_fmap_compose. apply list_fmap_ext.
    intros j [k v] Hj. simpl. apply Hback. intros ->. apply Hnew.
    apply list_elem_of_fmap. exists (new_name, v). split; [done|].
    by apply list_elem_of_lookup_2 in Hj.
Qed.

(** The state a successful [delete_specification] leaves. *)
Lemma delete_specification_run c (name' : string) (delete_records : bool) d
    (a : answer) :
  answer_plain c
    (Request "post" (dataset_url d "/specifications/bulkDelete")
       (DeleteStrBody [name'] delete_records)) = inr a →
  delete_specification c name' delete_records d
  = (Dataset (dataset_type d)
       (set_record_items
          (filter (λ x, specification_name x ≠ name') <$> record_items (raw d))
          (set_specifications (odict_pop name' (specifications (raw d)))
             (raw d)))
       (sent d ++ [Request "post" (dataset_url d "/specifications/bulkDelete")
                     (DeleteStrBody [name'] delete_records)]),
     inr a).
Proof.
  intros Hans. unfold delete_specification, bind, auto_request, modify_raw, ret.
  simpl. rewrite Hans. simpl.
  by destruct d as [ty [i n ln de ot en specs ents [[|x l]|]] st].
Qed.

(** X10: a successful [delete_specification] forgets the specification and
    nothing else: its name is no longer a key of the snapshot's
    specifications while every other specification stays, no lookup under
    that name finds a record any more, and lookups under other names find
    what they found before. *)
Theorem delete_specification_forgets c (name' : string)
    (delete_records : bool) d (a : answer) :
  answer_plain c
    (Request "post" (dataset_url d "/specifications/bulkDelete")
       (DeleteStrBody [name'] delete_records)) = inr a →
  (∀ k v, (k, v) ∈ specifications
                     (raw (delete_specification c name' delete_records d).1)
          ↔ (k, v) ∈ specifications (raw d) ∧ k ≠ name')
  ∧ ∀ e s,
      _lookup_record record_from_datamodel
        (raw (delete_specification c name' delete_records d).1) e s
      = if decide (s = name') then None
        else _lookup_record record_from_datamodel (raw d) e s.
Proof.
  intros Hans. rewrite (delete_specification_run _ _ _ _ a Hans). simpl.
  split.
  - intros k v. unfold odict_pop. rewrite list_elem_of_filter. simpl.
    split; intros [? ?]; by split.
  - intros e s. unfold _lookup_record. simpl.
    destruct (record_items (raw d)) as [items|]; simpl;
      [|by destruct (decide _)].
    destruct (decide (s = name')) as [->|Hs].
    + apply find_record_absent.
      intros (x & Hk & Hx)%list_elem_of_fmap.
      apply list_elem_of_filter in Hx as [Hx _]. apply Hx.
      unfold item_key in Hk. by injection Hk as <- _.
    + apply find_record_filter. intros x _ Hk.
      unfold item_key in Hk. by injection Hk as -> _.
Qed.

(** ** Entries *)

Lemma rename_entries_run c (m : gmap string string) d (a : answer) :
  answer_plain c
    (Request "patch" (dataset_url d "/entries") (NameMap m)) = inr a →
  rename_entries entry_name_of with_entry_name c m d
  = (Dataset (dataset_type d)
       (set_record_items
          (fmap (M := list) (rename_item_entry m) <$> record_items (raw d))
          (set_entries
             (fmap (M := list)
                (λ x, with_entry_name (renamed m (entry_name_of x)) x)
                <$> entries (raw d))
             (set_entry_names
                (fmap (M := list) (renamed m) <$> entry_names (raw d))
                (raw d))))
       (sent d ++ [Request "patch" (dataset_url d "/entries") (NameMap m)]),
     inr a).
Proof.
  intros Hans. unfold rename_entries, bind, auto_request, modify_raw, ret.
  simpl. rewrite Hans. simpl.
  by destruct d as [ty [i n ln de ot [[|? ?]|] specs [[|? ?]|] [[|? ?]|]] st].
Qed.

(** X11: after a successful [rename_entries], the entry names of the
    snapshot are the old ones renamed, in the same order, and a record is
    found under the new name of its entry: when the renaming sends no
    other cached entry to the new name of [e], a lookup under that new
    name finds what a lookup under [e] found before. *)
Theorem lookup_after_rename_entries c (m : gmap string string) d (a : answer)
    (e s : string) :
  answer_plain c
    (Request "patch" (dataset_url d "/entries") (NameMap m)) = inr a →
  (∀ x, x ∈ default [] (record_items (raw d)) →
        renamed m (entry_name x) = renamed m e → entry_name x = e) →
  entry_names (raw (rename_entries entry_name_of with_entry_name c m d).1)
  = fmap (M := list) (renamed m) <$> entry_names (raw d)
  ∧ _lookup_record record_from_datamodel
      (raw (rename_entries entry_name_of with_entry_name c m d).1)
      (renamed m e) s
    = _lookup_record record_from_datamodel (raw d) e s.
Proof.
  intros Hans Hinj. rewrite (rename_entries_run _ _ _ a Hans). simpl.
  split; [done|]. unfold _lookup_record. simpl.
  destruct (record_items (raw d)) as [items|]; simpl in Hinj |- *; [|done].
  apply find_record_fmap; [done|]. intros x Hx. unfold item_key. simpl.
  split.
  - intros [= Hs He]. by rewrite Hs, (Hinj x Hx He).
  - intros [= Hs He]. by rewrite Hs, He.
Qed.

Lemma delete_entries_run c (names : shaped string) (delete_records : bool) d
    (a : answer) :
  answer_plain c
    (Request "post" (dataset_url d "/entries/bulkDelete")
       (DeleteStrBody (make_list names) delete_records)) = inr a →
  delete_entries entry_name_of c names delete_records d
  = (Dataset (dataset_type d)
       (set_record_items
          (filter (λ x, entry_name x ∉ make_list names)
             <$> record_items (raw d))
          (set_entries
             (filter (λ x, entry_name_of x ∉ make_list names)
                <$> entries (raw d))
             (set_entry_names
                (filter (λ x, x ∉ make_list names) <$> entry_names (raw d))
                (raw d))))
       (sent d ++ [Request "post" (dataset_url d "/entries/bulkDelete")
                     (DeleteStrBody (make_list names) delete_records)]),
     inr a).
Proof.
  intros Hans. unfold delete_entries, bind, auto_request, modify_raw, ret.
  simpl. rewrite Hans. simpl.
  by destruct d as [ty [i n ln de ot [[|? ?]|] specs [[|? ?]|] [[|? ?]|]] st].
Qed.

(** X12: a successful [delete_entries] forgets the named entries and
    nothing else: the entry names of the snapshot are the old ones without
    the deleted names, in the same order; no lookup under a deleted entry
    finds a record any more, and lookups under other entries find what
    they found before. *)
Theorem delete_entries_forgets c (names : shaped string)
    (delete_records : bool) d (a : answer) :
  answer_plain c
    (Request "post" (dataset_url d "/entries/bulkDelete")
       (DeleteStrBody (make_list names) delete_records)) = inr a →
  entry_names (raw (delete_entries entry_name_of c names delete_records d).1)
  = filter (λ x, x ∉ make_list names) <$> entry_names (raw d)
  ∧ ∀ e s,
      _lookup_record record_from_datamodel
        (raw (delete_entries entry_name_of c names delete_records d).1) e s
      = if decide (e ∈ make_list names) then None
        else _lookup_record record_from_datamodel (raw d) e s.
Proof.
  intros Hans. rewrite (delete_entries_run _ _ _ _ a Hans). simpl.
  split; [done|]. intros e s. unfold _lookup_record. simpl.
  destruct (record_items (raw d)) as [items|]; simpl;
    [|by destruct (decide _)].
  destruct (decide (e ∈ make_list names)) as [He|He].
  - apply find_record_absent.
    intros (x & Hk & Hx)%list_elem_of_fmap.
    apply list_elem_of_filter in Hx as [Hx _]. apply Hx.
    unfold item_key in Hk. by injection Hk as _ <-.
  - apply find_record_filter. intros x _ Hk.
    unfold item_key in Hk. by injection Hk as _ ->.
Qed.

(** X13: [fetch_entries] keeps the entry names in step with the entries:
    after a successful fetch the snapshot holds the fetched entries, the
    name of each of them is among its entry names, and the entry names it
    had before are still there, first and in their order. *)
Theorem fetch_entries_names c (names : option (shaped string)) d
    (fetched : list entry) :
  answer_entries c
    (Request "post" (dataset_url d "/entries/bulkFetch")
       (FetchEntryBody (make_list_opt make_list_none names))) = inr fetched →
  entries (raw (fetch_entries name_of make_list_none c names d).1)
  = Some fetched
  ∧ ∃ added,
      entry_names (raw (fetch_entries name_of make_list_none c names d).1)
      = Some (default [] (entry_names (raw d)) ++ added)
      ∧ ∀ x, x ∈ fetched →
             name_of x ∈ default [] (entry_names (raw d)) ++ added.
Proof.
  intros Hans. unfold fetch_entries, bind, auto_request, modify_raw, ret.
  simpl. rewrite Hans. simpl.
  destruct d as [ty [i n ln de ot [l|] specs ents its] st]; simpl.
  - split; [done|].
    destruct (extend_new_spec (name_of <$> fetched) l) as (added & -> & _ & Hin).
    exists added. split; [done|]. intros x Hx. apply Hin. right.
    apply list_elem_of_fmap. by exists x.
  - split; [done|].
    exists (name_of <$> fetched). split; [done|]. intros x Hx.
    apply list_elem_of_fmap. by exists x.
Qed.

(** ** Name and description *)

(** X14: [set_name] sends one request, which carries the new name. If the
    request succeeds the snapshot has the new name; if it fails the error
    is raised again and the name of the snapshot is the old one. In both
    cases [lname] is the new name in lower case: the failure path restores
    [name] only. *)
Theorem set_name_restores_name_on_failure c (new_name : string) d :
  let rq :=
    Request "patch" (dataset_url d "")
      (ModifyMetadataBody new_name (description (raw d)) (other (raw d))) in
  let run := set_name lower c new_name d in
  sent run.1 = sent d ++ [rq]
  ∧ lname (raw run.1) = lower new_name
  ∧ match answer_plain c rq with
    | inr _ => run.2 = inr tt ∧ name (raw run.1) = new_name
    | inl err => run.2 = inl (RequestError err) ∧ name (raw run.1) = name (raw d)
    end.
Proof.
  simpl. unfold set_name, try_except_reraise, _update_metadata, bind, get_raw,
    auto_request, modify_raw, ret. simpl.
  change (dataset_url _ "") with (dataset_url d "").
  by destruct (answer_plain c _) as [err|a].
Qed.

(** X15: [set_description] sends one request, which carries the new
    description, and the snapshot has the new description afterwards
    whether the request succeeds or fails: the failure path assigns to
    [old_description], which is not a field of the snapshot, so the
    description is not put back and the call ends in the error of that
    assignment. *)
Theorem set_description_keeps_new_on_failure c
    (new_description : option string) d :
  let rq :=
    Request "patch" (dataset_url d "")
      (ModifyMetadataBody (name (raw d)) new_description (other (raw d))) in
  let run := set_description c new_description d in
  sent run.1 = sent d ++ [rq]
  ∧ description (raw run.1) = new_description
  ∧ run.2 = match answer_plain c rq with
            | inr _ => inr tt
            | inl _ => inl (NoField "old_description")
            end.
Proof.
  simpl. unfold set_description, try_except_reraise, _update_metadata, bind,
    get_raw, auto_request, modify_raw, ret, raise. simpl.
  change (dataset_url _ "") with (dataset_url d "").
  by destruct (answer_plain c _) as [err|a].
Qed.

(** ** Renaming a specification onto another *)

Lemma odict_set_keys (k : string) (v : specification) specs :
  (odict_set k v specs).*1
  = if decide (k ∈ specs.*1) then specs.*1 else specs.*1 ++ [k].
Proof.
  induction specs as [|[k' v'] specs IH].
  - simpl. destruct (decide (k ∈ [])) as [Hin|_]; [|done].
    by apply elem_of_nil in Hin.
  - rewrite fmap_cons. simpl odict_set. simpl fst.
    destruct (decide (k = k')) as [->|Hne].
    + rewrite decide_True by by left. done.
    + rewrite fmap_cons, IH. simpl fst.
      destruct (decide (k ∈ specs.*1)) as [Hin|Hnin].
      * by rewrite decide_True by by right.
      * rewrite decide_False; [done|].
        intros [?|?]%elem_of_cons; done.
Qed.

(** The keys of the comprehension: the renamed keys, each at the place of
    its first occurrence. *)
Lemma rename_keys_keys (m : gmap string string) specs :
  (rename_keys m specs).*1 = extend_new [] (renamed m <$> specs.*1).
Proof.
  unfold rename_keys.
  assert (∀ acc : list (string * specification),
    (foldl (λ acc kv, odict_set (renamed m kv.1) kv.2 acc) acc specs).*1
    = extend_new acc.*1 (renamed m <$> specs.*1)) as Hgen.
  { induction specs as [|[k v] specs IH]; intros acc; simpl; [done|].
    rewrite IH, odict_set_keys.
    by destruct (decide (renamed m k ∈ acc.*1)). }
  apply (Hgen []).
Qed.

(** X16: renaming a specification onto the name of another one loses a
    specification in the snapshot: when [old_name] and [new_name] are two
    different specifications of the snapshot, a successful
    [rename_specification] leaves one specification fewer; [old_name] is
    gone and the other names are all still there, [new_name] once. *)
Theorem rename_specification_onto_existing c (old_name new_name : string) d
    (a : answer) :
  answer_plain c
    (Request "patch" (dataset_url d "/specifications")
       (NameMap {[old_name := new_name]})) = inr a →
  NoDup (specifications (raw d)).*1 →
  old_name ∈ (specifications (raw d)).*1 →
  new_name ∈ (specifications (raw d)).*1 →
  old_name ≠ new_name →
  length (specifications (raw (rename_specification c old_name new_name d).1))
    + 1
  = length (specifications (raw d))
  ∧ NoDup (specifications
             (raw (rename_specification c old_name new_name d).1)).*1
  ∧ ∀ k, k ∈ (specifications
                (raw (rename_specification c old_name new_name d).1)).*1
         ↔ k ∈ (specifications (raw d)).*1 ∧ k ≠ old_name.
Proof.
  intros Hans Hnd Hold Hnew Hne.
  rewrite (rename_specification_run _ _ _ _ a Hans). simpl.
  set (keys := (specifications (raw d)).*1) in Hnd, Hold, Hnew |- *.
  set (specs' := rename_keys {[old_name := new_name]} (specifications (raw d))).
  destruct (extend_new_spec (renamed {[old_name := new_name]} <$> keys) [])
    as (added & E & Hnd' & Hin).
  assert (specs'.*1 = added) as Hkeys.
  { unfold specs'. by rewrite rename_keys_keys. }
  simpl in E, Hnd', Hin. specialize (Hnd' NoDup_nil_2).
  assert (∀ k, k ∈ added ↔ k ∈ keys ∧ k ≠ old_name) as Hmem.
  { intros k. rewrite Hin, elem_of_nil, list_elem_of_fmap. split.
    - intros [[]|(k0 & -> & Hk0)]. rewrite renamed_singleton.
      destruct (decide (k0 = old_name)) as [->|?]; split; congruence.
    - intros [Hk Hk']. right. exists k. split; [|done].
      rewrite renamed_singleton. by rewrite decide_False. }
  split; [|split; [by rewrite Hkeys|by rewrite Hkeys]].
  assert (keys ≡ₚ old_name :: added) as Hperm.
  { apply NoDup_Permutation; [done| |].
    - apply NoDup_cons. split; [|done]. rewrite Hmem. by intros [_ ?].
    - intros k. rewrite elem_of_cons, Hmem.
      destruct (decide (k = old_name)) as [->|?].
      + split; [by left|done].
      + split; [by right|]. by intros [?|[? _]]. }
  rewrite <- (length_fmap fst specs'), Hkeys.
  rewrite <- (length_fmap fst (specifications (raw d))).
  fold keys. rewrite Hperm. simpl. lia.
Qed.

End DatasetProperties.

(** * Properties of the request wrappers *)

Section PortalProperties.

Import Portal.

Local Set Default Proof Using "Type".

Context {keyword_set molecule record_data record user_info priority
         query_metadata insert_metadata update_metadata error : Type}.
Context (empty_insert_metadata : insert_metadata).
Context (empty_update_metadata : update_metadata).
Context (is_valid_username : string → option error).
Context (username_of : user_info → string).
Context (to_record : record_data → record).
Context (make_list_none : option (list string)).

Implicit Types (c : @client molecule priority).
Implicit Types
  (s : @server keyword_set molecule record_data user_info priority
         query_metadata insert_metadata update_metadata error).

(** X17: [get_keywords] never asks for nothing and never asks for more
    than the server allows: it sends at most one request, and a request it
    sends carries the ids it was given, at least one and at most
    [api_limits["get_keywords"]] of them. It reads the client's limits and
    user name only. *)
Theorem get_keywords_within_limit s (keywords_ids : shaped Z)
    (missing_ok : bool) c :
  ∃ new,
    (get_keywords s keywords_ids missing_ok c).1
    = Client (api_limits c) (username c) (sent c ++ new) (warned c)
    ∧ (length new ≤ 1)%nat
    ∧ ∀ rq, rq ∈ new →
        rq = Request "post" "v1/keywords/bulkGet"
               (BulkGetBody (make_list keywords_ids) missing_ok None)
        ∧ make_list keywords_ids ≠ []
        ∧ ∃ limit, api_limits c !! "get_keywords" = Some limit
                   ∧ (len (make_list keywords_ids) ≤ limit)%Z.
Proof.
  assert (∀ c, c = Client (api_limits c) (username c) (sent c ++ []) (warned c))
    as Hsame.
  { intros [? ? ? ?]. simpl. by rewrite app_nil_r. }
  unfold get_keywords.
  destruct (make_list keywords_ids) as [|i ids] eqn:Hids.
  - exists []. split; [apply Hsame|]. split; [simpl; lia|].
    intros rq Hrq. by apply elem_of_nil in Hrq.
  - unfold bind, api_limit. simpl.
    destruct (api_limits c !! "get_keywords") as [limit|] eqn:Hlim.
    + destruct (decide (len (i :: ids) > limit)%Z) as [Hover|Hok].
      * exists []. split; [apply Hsame|]. split; [simpl; lia|].
        intros rq Hrq. by apply elem_of_nil in Hrq.
      * exists [Request "post" "v1/keywords/bulkGet"
                  (BulkGetBody (i :: ids) missing_ok None)].
        split; [|split; [simpl; lia|]].
        -- unfold auto_request, ret, first, raise. simpl.
           destruct (answer_keywords s _) as [e|[|k ks]];
             by destruct keywords_ids.
        -- intros rq ->%list_elem_of_singleton.
           split; [done|]. split; [done|]. exists limit. split; [done|]. lia.
    + exists []. split; [apply Hsame|]. split; [simpl; lia|].
      intros rq Hrq. by apply elem_of_nil in Hrq.
Qed.

(** X18: [add_molecules] sends nothing for an empty list and answers with
    the empty metadata; it never sends more molecules than
    [api_limits["add_molecules"]]: it sends at most one request, and a
    request it sends carries the whole list, which is then not empty and
    within the limit. *)
Theorem add_molecules_within_limit s (molecules : list molecule) c :
  (molecules = [] →
   add_molecules empty_insert_metadata s molecules c
   = (c, inr (empty_insert_metadata, [])))
  ∧ ∃ new,
      (add_molecules empty_insert_metadata s molecules c).1
      = Client (api_limits c) (username c) (sent c ++ new) (warned c)
      ∧ (length new ≤ 1)%nat
      ∧ ∀ rq, rq ∈ new →
          rq = Request "post" "v1/molecules/bulkCreate" (MoleculeList molecules)
          ∧ molecules ≠ []
          ∧ ∃ limit, api_limits c !! "add_molecules" = Some limit
                     ∧ (len molecules ≤ limit)%Z.
Proof.
  assert (∀ c, c = Client (api_limits c) (username c) (sent c ++ []) (warned c))
    as Hsame.
  { intros [? ? ? ?]. simpl. by rewrite app_nil_r. }
  split; [by intros ->|].
  unfold add_molecules. destruct molecules as [|m ms].
  - exists []. split; [apply Hsame|]. split; [simpl; lia|].
    intros rq Hrq. by apply elem_of_nil in Hrq.
  - unfold bind, api_limit. simpl.
    destruct (api_limits c !! "add_molecules") as [limit|] eqn:Hlim.
    + destruct (decide (len (m :: ms) > limit)%Z) as [Hover|Hok].
      * exists []. split; [apply Hsame|]. split; [simpl; lia|].
        intros rq Hrq. by apply elem_of_nil in Hrq.
      * exists [Request "post" "v1/molecules/bulkCreate"
                  (MoleculeList (m :: ms))].
        split; [|split; [simpl; lia|]].
        -- unfold auto_request. simpl.
           by destruct (answer_insert s
                          (Request "post" "v1/molecules/bulkCreate"
                             (MoleculeList (m :: ms)))).
        -- intros rq ->%list_elem_of_singleton.
           split; [done|]. split; [done|]. exists limit. split; [done|]. lia.
    + exists []. split; [apply Hsame|]. split; [simpl; lia|].
      intros rq Hrq. by apply elem_of_nil in Hrq.
Qed.

(** X19: [query_molecules] never sends a limit above the server's: with a
    limit given and [api_limits["get_molecules"]] known, the one request
    sent carries the smaller of the two, and a warning is issued exactly
    when the given limit was the larger. *)
Theorem query_molecules_clamps_limit s
    (molecule_hash molecular_formula : option (shaped string))
    (identifiers : option (gmap string (shaped string)))
    (limit server_limit skip : Z) c :
  api_limits c !! "get_molecules" = Some server_limit →
  let run :=
    query_molecules make_list_none s molecule_hash molecular_formula
      identifiers (Some limit) skip c in
  sent run.1
  = sent c ++
    [Request "post" "v1/molecules/query"
       (MoleculeQuery (make_list_opt make_list_none molecule_hash)
          (make_list_opt make_list_none molecular_formula)
          (Some (Z.min limit server_limit)) skip
          (fmap (M := gmap string) make_list <$> identifiers))]
  ∧ (Z.min limit server_limit ≤ server_limit)%Z
  ∧ ((limit ≤ server_limit)%Z → warned run.1 = warned c)
  ∧ ((limit > server_limit)%Z → ∃ msg, warned run.1 = warned c ++ [msg]).
Proof.
  intros Hlim. simpl.
  unfold query_molecules, bind, api_limit, warn, ret, auto_request. simpl.
  rewrite Hlim. simpl.
  destruct (decide (limit > server_limit)%Z) as [Hover|Hok]; simpl.
  - split; [done|]. split; [lia|]. split; [lia|]. intros _. by eexists.
  - rewrite Z.min_l by lia. split; [done|]. split; [lia|].
    split; [done|]. lia.
Qed.

(** ** Records *)

Lemma records_include_star (include_task include_service include_outputs
    include_comments : bool) :
  (records_include include_task include_service include_outputs
     include_comments = ∅
   ↔ include_task = false ∧ include_service = false
     ∧ include_outputs = false ∧ include_comments = false)
  ∧ (records_include include_task include_service include_outputs
       include_comments ≠ ∅ →
     "*" ∈ records_include include_task include_service include_outputs
             include_comments).
Proof.
  unfold records_include.
  destruct include_task, include_service, include_outputs, include_comments;
    (split; [split; [intros H; exfalso; set_solver|intros (?&?&?&?); done]
            |intros _; set_solver])
    || (split; [split; [done|done]|intros H; by exfalso]).
Qed.

(** X20: [get_records] sends at most one request, never for no id and
    never for more ids than [api_limits["get_records"]]. The request has
    an [include] key exactly when an [include_] flag is set, and the set
    under that key then holds ["*"], so that the default fields come
    along with the ones asked for. *)
Theorem get_records_request s (record_ids : shaped Z)
    (missing_ok include_task include_service include_outputs
     include_comments : bool) c :
  ∃ new,
    (get_records to_record s record_ids missing_ok include_task
       include_service include_outputs include_comments c).1
    = Client (api_limits c) (username c) (sent c ++ new) (warned c)
    ∧ (length new ≤ 1)%nat
    ∧ ∀ rq, rq ∈ new →
        ∃ include limit,
          rq = Request "post" "v1/records/bulkGet"
                 (BulkGetBody (make_list record_ids) missing_ok include)
          ∧ make_list record_ids ≠ []
          ∧ api_limits c !! "get_records" = Some limit
          ∧ (len (make_list record_ids) ≤ limit)%Z
          ∧ (include = None ↔
             include_task = false ∧ include_service = false
             ∧ include_outputs = false ∧ include_comments = false)
          ∧ ∀ fields, include = Some fields → "*" ∈ fields.
Proof.
  assert (∀ c, c = Client (api_limits c) (username c) (sent c ++ []) (warned c))
    as Hsame.
  { intros [? ? ? ?]. simpl. by rewrite app_nil_r. }
  unfold get_records.
  destruct (make_list record_ids) as [|i ids] eqn:Hids.
  - exists []. split; [apply Hsame|]. split; [simpl; lia|].
    intros rq Hrq. by apply elem_of_nil in Hrq.
  - unfold bind, api_limit. simpl.
    destruct (api_limits c !! "get_records") as [limit|] eqn:Hlim.
    + destruct (decide (len (i :: ids) > limit)%Z) as [Hover|Hok].
      * exists []. split; [apply Hsame|]. split; [simpl; lia|].
        intros rq Hrq. by apply elem_of_nil in Hrq.
      * set (fields := records_include include_task include_service
                         include_outputs include_comments).
        set (include := if decide (fields = ∅) then None else Some fields).
        exists [Request "post" "v1/records/bulkGet"
                  (BulkGetBody (i :: ids) missing_ok include)].
        split; [|split; [simpl; lia|]].
        -- unfold auto_request, ret, first, raise. simpl.
           fold fields. fold include.
           destruct (answer_records s
                       (Request "post" "v1/records/bulkGet"
                          (BulkGetBody (i :: ids) missing_ok include)))
             as [e|[|k ks]]; by destruct record_ids.
        -- intros rq ->%list_elem_of_singleton.
           exists include, limit. split; [done|]. split; [done|].
           split; [done|]. split; [lia|].
           destruct (records_include_star include_task include_service
                       include_outputs include_comments) as [Hempty Hstar].
           fold fields in Hempty, Hstar. unfold include.
           destruct (decide (fields = ∅)) as [E|Hne].
           ++ split; [|done]. split; [intros _; by apply Hempty|done].
           ++ split.
              ** split; [done|]. intros H. by apply Hempty in H.
              ** intros ? [= <-]. by apply Hstar.
    + exists []. split; [apply Hsame|]. split; [simpl; lia|].
      intros rq Hrq. by apply elem_of_nil in Hrq.
Qed.

(** X21: [modify_records] never sends a modification that modifies
    nothing: with no record or with neither a tag nor a priority it sends
    no request and answers with the empty metadata, and a request it sends
    names at least one record and carries a new tag or a new priority. *)
Theorem modify_records_sends_changes_only s (record_ids : shaped Z)
    (new_tag : option string) (new_priority : option priority) c :
  ∃ new,
    (modify_records empty_update_metadata s record_ids new_tag new_priority
       c).1
    = Client (api_limits c) (username c) (sent c ++ new) (warned c)
    ∧ (length new ≤ 1)%nat
    ∧ (make_list record_ids = [] ∨ (new_tag = None ∧ new_priority = None) →
       new = []
       ∧ (modify_records empty_update_metadata s record_ids new_tag
            new_priority c).2 = inr empty_update_metadata)
    ∧ ∀ rq, rq ∈ new →
        rq = Request "patch" "v1/records"
               (RecordModify (make_list record_ids) new_tag new_priority)
        ∧ make_list record_ids ≠ []
        ∧ (is_Some new_tag ∨ is_Some new_priority).
Proof.
  assert (∀ c, c = Client (api_limits c) (username c) (sent c ++ []) (warned c))
    as Hsame.
  { intros [? ? ? ?]. simpl. by rewrite app_nil_r. }
  unfold modify_records.
  destruct (make_list record_ids) as [|i ids] eqn:Hids.
  - exists []. split; [apply Hsame|]. split; [simpl; lia|].
    split; [done|]. intros rq Hrq. by apply elem_of_nil in Hrq.
  - destruct new_tag as [t|], new_priority as [p|].
    4: { exists []. split; [apply Hsame|]. split; [simpl; lia|].
         split; [done|]. intros rq Hrq. by apply elem_of_nil in Hrq. }
    all: eexists [_]; (split; [unfold auto_request; simpl; reflexivity|]);
      (split; [simpl; lia|]);
      (split; [by intros [?|[? ?]]|]);
      intros rq ->%list_elem_of_singleton;
      (split; [done|]); (split; [done|]); eauto.
Qed.

(** ** Users *)

(** X22: [delete_user] never asks the server to delete the user the
    client is logged in as: for that user name it sends no request and
    raises. For any name, a request it sends is the one [DELETE] of
    [v1/users/<name>], and the name is then not the client's own. *)
Theorem delete_user_never_self s (username' : string) c :
  ∃ new,
    (delete_user is_valid_username s username' c).1
    = Client (api_limits c) (username c) (sent c ++ new) (warned c)
    ∧ (username c = Some username' →
       new = []
       ∧ ∃ e, (delete_user is_valid_username s username' c).2 = inl e)
    ∧ ∀ rq, rq ∈ new →
        rq = Request "delete" ("v1/users/" +:+ username') NoBody
        ∧ username c ≠ Some username'
        ∧ is_valid_username username' = None.
Proof.
  assert (∀ c, c = Client (api_limits c) (username c) (sent c ++ []) (warned c))
    as Hsame.
  { intros [? ? ? ?]. simpl. by rewrite app_nil_r. }
  unfold delete_user, bind, check, self_username.
  destruct (is_valid_username username') as [e|] eqn:Hvalid; simpl.
  - exists []. split; [apply Hsame|]. split.
    + intros _. split; [done|]. by eexists.
    + intros rq Hrq. by apply elem_of_nil in Hrq.
  - destruct (decide (Some username' = username c)) as [Hme|Hother]; simpl.
    + exists []. split; [apply Hsame|]. split.
      * intros _. split; [done|]. by eexists.
      * intros rq Hrq. by apply elem_of_nil in Hrq.
    + exists [Request "delete" ("v1/users/" +:+ username') NoBody].
      split; [done|]. split; [by intros ?|].
      intros rq ->%list_elem_of_singleton. split; [done|]. by split.
Qed.

(** X23: what [get_user] returns for the client's own user is the
    client's own user: when it is asked for no name or for the name the
    client is logged in as, not as an admin, and returns, it has sent the
    one request [GET v1/me] and the user name in the answer is the
    client's. *)
Theorem get_user_own_info s (username' : option string) c (uinfo : user_info) :
  (username' = None ∨ username' = username c) →
  (get_user is_valid_username username_of s username' false c).2 = inr uinfo →
  username c = Some (username_of uinfo)
  ∧ sent (get_user is_valid_username username_of s username' false c).1
    = sent c ++ [Request "get" "v1/me" NoBody].
Proof.
  intros Hown. unfold get_user, bind, self_username, check. simpl.
  assert (match username' with Some u => Some u | None => username c end
          = username c) as ->.
  { by destruct Hown as [->| ->]; [|destruct (username c)]. }
  destruct (username c) as [me|] eqn:Hme; simpl; [|done].
  destruct (is_valid_username me) as [e|]; simpl; [done|].
  rewrite decide_False by (intros H; by apply H). simpl.
  unfold auto_request. simpl.
  destruct (answer_user s (Request "get" "v1/me" NoBody)) as [e|u]; simpl;
    [done|].
  destruct (decide (Some (username_of u) ≠ Some me)) as [Hne|Heq]; simpl;
    [done|].
  intros [= ->]. split; [|done].
  destruct (decide (Some (username_of uinfo) = Some me)) as [E|E];
    [by rewrite E|done].
Qed.

(** X24: [get_user] asks for another user at the admin endpoint, whether
    [as_admin] is set or not: for a name that is not the client's own it
    sends nothing or the one request [GET v1/users/<name>], never
    [GET v1/me]. *)
Theorem get_user_other_user s (name' : string) (as_admin : bool) c :
  username c ≠ Some name' →
  ∃ new,
    sent (get_user is_valid_username username_of s (Some name') as_admin c).1
    = sent c ++ new
    ∧ (is_valid_username name' = None →
       new = [Request "get" ("v1/users/" +:+ name') NoBody])
    ∧ (is_valid_username name' ≠ None → new = []).
Proof.
  intros Hother. unfold get_user, bind, self_username, check. simpl.
  destruct (is_valid_username name') as [e|]; simpl.
  - exists []. rewrite app_nil_r. split; [done|]. by split.
  - rewrite decide_True by (intros H; by apply Hother). simpl.
    eexists. split; [done|]. by split.
Qed.

End PortalProperties.

(** * The added properties at work on the examples *)

(** X1 at the example dataset: one of the new names is there already, one
    is given twice. *)
Lemma append_entry_names_no_duplicates_witness :
  ∃ added,
    Dataset.entry_names
      (Dataset._append_entry_names ["ethane"; "water"; "ethane"]
         Dataset.example_raw)
    = Some (["water"; "methane"] ++ added)
    ∧ NoDup (["water"; "methane"] ++ added).
Proof.
  destruct (append_entry_names_no_duplicates ["ethane"; "water"; "ethane"]
              Dataset.example_raw) as (added & E & Hnd & _).
  - compute_done.
  - exists added. split; [exact E|exact Hnd].
Defined.

(** X3 at the example dataset: the download brings methane under
    [spec_2]. *)
Lemma lookup_after_fetch_witness :
  Dataset._lookup_record Some
    (Dataset.raw (Dataset.fetch_record_items None Dataset.example_client
                    None None Dataset.example_dataset).1)
    "methane" "spec_2"
  = Some "r4"
  ∧ Dataset._lookup_record Some
      (Dataset.raw (Dataset.fetch_record_items None Dataset.example_client
                      None None Dataset.example_dataset).1)
      "water" "spec_1"
    = Some "r1".
Proof.
  split.
  - rewrite (lookup_after_fetch Some None Dataset.example_client None None
               Dataset.example_dataset
               [Dataset.RecordItem "spec_2" "methane" "r4"]);
      vm_compute; reflexivity.
  - rewrite (lookup_after_fetch Some None Dataset.example_client None None
               Dataset.example_dataset
               [Dataset.RecordItem "spec_2" "methane" "r4"]);
      vm_compute; reflexivity.
Defined.

(** X4 at the example dataset. *)
Lemma fetch_keeps_item_keys_unique_witness :
  ∃ items,
    Dataset.record_items
      (Dataset.raw (Dataset.fetch_record_items None Dataset.example_client
                      None None Dataset.example_dataset).1) = Some items
    ∧ NoDup (Dataset.item_key <$> items).
Proof.
  destruct (fetch_keeps_item_keys_unique None Dataset.example_client None None
              Dataset.example_dataset
              [Dataset.RecordItem "spec_2" "methane" "r4"])
    as (items & Hitems & Hnd & _).
  - vm_compute. reflexivity.
  - compute_done.
  - compute_done.
  - by exists items.
Defined.

(** X5 at the example dataset: water under [spec_2] is cached. *)
Lemma get_record_cached_witness :
  Dataset.get_record Some None Dataset.example_client "water" "spec_2"
    Dataset.example_dataset
  = (Dataset.example_dataset, inr (Some "r3")).
Proof.
  apply (get_record_cached Some None Dataset.example_client
           Dataset.example_dataset "water" "spec_2" "r3").
  vm_compute. reflexivity.
Defined.

(** X6 at the example dataset: methane under [spec_2] is not cached. *)
Lemma get_record_fetches_once_witness :
  Dataset.sent
    (Dataset.get_record Some None Dataset.example_client "methane" "spec_2"
       Dataset.example_dataset).1
  = [Dataset.Request "post" "v1/datasets/singlepoint/7/record_items/bulkFetch"
       (Dataset.FetchRecordItemsBody (Some ["methane"]) (Some ["spec_2"])
          ["*"; "record"])].
Proof.
  destruct (get_record_fetches_once Some None Dataset.example_client
              Dataset.example_dataset "methane" "spec_2") as [Hsent _].
  - vm_compute. reflexivity.
  - rewrite Hsent. vm_compute. reflexivity.
Defined.

(** X7 at the example dataset. *)
Lemma rename_specification_in_place_witness :
  Dataset.specifications
    (Dataset.raw (Dataset.rename_specification Dataset.example_client
                    "spec_1" "spec_3" Dataset.example_dataset).1)
  = [("spec_3", "hf/sto-3g"); ("spec_2", "b3lyp/def2-svp")].
Proof.
  rewrite (rename_specification_in_place Dataset.example_client
             "spec_1" "spec_3" Dataset.example_dataset "ok").
  - vm_compute. reflexivity.
  - vm_compute. reflexivity.
  - compute_done.
  - compute_done.
Defined.

(** X8 at the example dataset. *)
Lemma lookup_after_rename_specification_witness :
  Dataset._lookup_record Some
    (Dataset.raw (Dataset.rename_specification Dataset.example_client
                    "spec_1" "spec_3" Dataset.example_dataset).1)
    "methane" "spec_3"
  = Some "r2".
Proof.
  rewrite (lookup_after_rename_specification Some Dataset.example_client
             "spec_1" "spec_3" Dataset.example_dataset "ok").
  - vm_compute. reflexivity.
  - vm_compute. reflexivity.
  - intros x Hx. vm_compute in Hx.
    repeat (apply elem_of_cons in Hx as [->|Hx]; [discriminate|]).
    by apply elem_of_nil in Hx.
  - discriminate.
Defined.

(** X9 at the example dataset. *)
Lemma rename_specification_round_trip_witness :
  Dataset.raw
    (Dataset.rename_specification Dataset.example_client "spec_3" "spec_1"
       (Dataset.rename_specification Dataset.example_client
          "spec_1" "spec_3" Dataset.example_dataset).1).1
  = Dataset.example_raw.
Proof.
  apply (rename_specification_round_trip Dataset.example_client
           "spec_1" "spec_3" Dataset.example_dataset "ok" "ok").
  - vm_compute. reflexivity.
  - vm_compute. reflexivity.
  - compute_done.
  - compute_done.
  - intros x Hx. vm_compute in Hx.
    repeat (apply elem_of_cons in Hx as [->|Hx]; [discriminate|]).
    by apply elem_of_nil in Hx.
Defined.

(** X16 at the example dataset: [spec_1] renamed onto [spec_2]. *)
Lemma rename_specification_onto_existing_witness :
  length
    (Dataset.specifications
       (Dataset.raw (Dataset.rename_specification Dataset.example_client
                       "spec_1" "spec_2" Dataset.example_dataset).1))
  = 1.
Proof.
  destruct (rename_specification_onto_existing Dataset.example_client
              "spec_1" "spec_2" Dataset.example_dataset "ok")
    as (Hlen & _ & _).
  - vm_compute. reflexivity.
  - compute_done.
  - compute_done.
  - compute_done.
  - discriminate.
  - change (length (Dataset.specifications (Dataset.raw Dataset.example_dataset)))
      with 2 in Hlen. lia.
Defined.

(** X10 at the example dataset. *)
Lemma delete_specification_forgets_witness :
  Dataset._lookup_record Some
    (Dataset.raw (Dataset.delete_specification Dataset.example_client
                    "spec_1" false Dataset.example_dataset).1)
    "water" "spec_1"
  = None
  ∧ Dataset._lookup_record Some
      (Dataset.raw (Dataset.delete_specification Dataset.example_client
                      "spec_1" false Dataset.example_dataset).1)
      "water" "spec_2"
    = Some "r3".
Proof.
  destruct (delete_specification_forgets Some Dataset.example_client
              "spec_1" false Dataset.example_dataset "ok") as [_ Hlook].
  - vm_compute. reflexivity.
  - split; rewrite Hlook; vm_compute; reflexivity.
Defined.

(** X11 at the example dataset: water becomes h2o. *)
Lemma lookup_after_rename_entries_witness :
  Dataset._lookup_record Some
    (Dataset.raw (Dataset.rename_entries id (λ v _, v) Dataset.example_client
                    {["water" := "h2o"]} Dataset.example_dataset).1)
    "h2o" "spec_2"
  = Some "r3".
Proof.
  destruct (lookup_after_rename_entries Some id (λ v _, v)
              Dataset.example_client {["water" := "h2o"]}
              Dataset.example_dataset "ok" "water" "spec_2") as [_ Hlook].
  - vm_compute. reflexivity.
  - intros x Hx. vm_compute in Hx.
    repeat (apply elem_of_cons in Hx as [->|Hx];
            [vm_compute; first [done | discriminate]|]).
    by apply elem_of_nil in Hx.
  - etransitivity; [|exact Hlook]. vm_compute. reflexivity.
Defined.

(** X12 at the example dataset. *)
Lemma delete_entries_forgets_witness :
  Dataset.entry_names
    (Dataset.raw (Dataset.delete_entries id Dataset.example_client
                    (One "water") false Dataset.example_dataset).1)
  = Some ["methane"]
  ∧ Dataset._lookup_record Some
      (Dataset.raw (Dataset.delete_entries id Dataset.example_client
                      (One "water") false Dataset.example_dataset).1)
      "water" "spec_1"
    = None.
Proof.
  destruct (delete_entries_forgets Some id Dataset.example_client
              (One "water") false Dataset.example_dataset "ok")
    as [Hnames Hlook].
  - vm_compute. reflexivity.
  - split.
    + rewrite Hnames. vm_compute. reflexivity.
    + rewrite Hlook. vm_compute. reflexivity.
Defined.

(** X13 at the example dataset: the server has water and ethane. *)
Lemma fetch_entries_names_witness :
  Dataset.entries
    (Dataset.raw (Dataset.fetch_entries id None Dataset.example_client None
                    Dataset.example_dataset).1)
  = Some ["water"; "ethane"].
Proof.
  destruct (fetch_entries_names id None Dataset.example_client None
              Dataset.example_dataset ["water"; "ethane"]) as [Hentries _].
  - vm_compute. reflexivity.
  - exact Hentries.
Defined.

(** X19 at the example client: 5000 molecules asked for, 1000 allowed. *)
Lemma query_molecules_clamps_limit_witness :
  ∃ msg,
    Portal.warned
      (Portal.query_molecules None Portal.example_server None None None
         (Some 5000%Z) 0%Z Portal.example_client).1
    = [msg].
Proof.
  destruct (query_molecules_clamps_limit None Portal.example_server
              None None None 5000%Z 1000%Z 0%Z Portal.example_client)
    as (_ & _ & _ & Hwarn).
  - vm_compute. reflexivity.
  - destruct Hwarn as [msg Hmsg]; [reflexivity|]. by exists msg.
Defined.

(** X23 at the example client, logged in as alice. *)
Lemma get_user_own_info_witness :
  Portal.sent
    (Portal.get_user (λ _, None) id Portal.example_server None false
       Portal.example_client).1
  = [Portal.Request "get" "v1/me" Portal.NoBody].
Proof.
  destruct (get_user_own_info (λ _, None) id Portal.example_server None
              Portal.example_client "alice") as [_ Hsent].
  - by left.
  - vm_compute. reflexivity.
  - exact Hsent.
Defined.

(** X24 at the example client: alice asks for bob. *)
Lemma get_user_other_user_witness :
  Portal.sent
    (Portal.get_user (λ _, None) id Portal.example_server (Some "bob") false
       Portal.example_client).1
  = [Portal.Request "get" "v1/users/bob" Portal.NoBody].
Proof.
  destruct (get_user_other_user (λ _, None) id Portal.example_server "bob"
              false Portal.example_client) as (new & Hsent & Hnew & _).
  - discriminate.
  - rewrite Hsent, (Hnew eq_refl). vm_compute. reflexivity.
Defined.
